(** * Verification of recordlinkage/fuse.py: the pairwise fusion engine

    Shallow embedding of [FuseCore] and [FuseLinks] of
    [src/recordlinkage/fuse.py]: the resolution queue, the alignment
    [FuseLinks._make_resolution_series], [FuseCore.resolve] and
    [FuseCore.fuse], over a small model of the pandas operations they use. *)

From Stdlib Require Import String List ZArith Bool Lia.
Import ListNotations.
#[local] Set Warnings "-register-all".

(* ------------------------------------------------------------------ *)
(** ** Python values and exceptions *)

Module Py.

(** The Python objects that occur as cell values, column labels, record ids
    and metadata constants. [VNone] is [None] and pandas' missing value. *)
Inductive Value : Type :=
| VInt (z : Z)
| VStr (s : string)
| VNone
| VList (l : list Value).

(** Induction with a hypothesis for every element of a list. *)
Definition Value_ind' (P : Value -> Prop)
  (fi : forall z, P (VInt z)) (fs : forall s, P (VStr s)) (fn : P VNone)
  (fl : forall l, Forall P l -> P (VList l)) : forall v, P v :=
  fix F (v : Value) : P v :=
    match v as v0 return P v0 with
    | VInt z => fi z
    | VStr s => fs s
    | VNone => fn
    | VList l =>
        fl l ((fix G (l : list Value) : Forall P l :=
                 match l as l0 return Forall P l0 with
                 | [] => Forall_nil P
                 | x :: l' => Forall_cons x (F x) (G l')
                 end) l)
    end.

(** Python [==] on these objects. *)
Fixpoint value_eqb (x y : Value) {struct x} : bool :=
  match x, y with
  | VInt a, VInt b => Z.eqb a b
  | VStr a, VStr b => String.eqb a b
  | VNone, VNone => true
  | VList xs, VList ys =>
      (fix go (xs ys : list Value) {struct xs} : bool :=
         match xs, ys with
         | [], [] => true
         | x :: xs', y :: ys' => value_eqb x y && go xs' ys'
         | _, _ => false
         end) xs ys
  | _, _ => false
  end.

(** Python exceptions raised on the paths modelled. *)
Inductive PyErr : Type :=
| AssertionError (msg : string)
| ValueError (msg : string)
| KeyError (key : Value)
| IndexError
| TypeError.

(** [KeyError] and [IndexError] are the subclasses of [LookupError]. *)
Definition is_lookup_error (e : PyErr) : bool :=
  match e with KeyError _ | IndexError => true | _ => false end.

(** The configuration errors of the alignment: [AssertionError] and
    [ValueError]. *)
Definition is_config_error (e : PyErr) : bool :=
  match e with AssertionError _ | ValueError _ => true | _ => false end.

(** A computation that returns a value or raises. *)
Inductive Result (A : Type) : Type :=
| Ok (a : A)
| Err (e : PyErr).
Arguments Ok {A} a.
Arguments Err {A} e.

Definition bind {A B} (m : Result A) (k : A -> Result B) : Result B :=
  match m with Ok a => k a | Err e => Err e end.

Notation "x <- m ;; k" := (bind m (fun x => k))
  (at level 61, m at next level, right associativity).

(** A Python [for] loop that appends one result per element. *)
Fixpoint mapM {A B} (f : A -> Result B) (l : list A) : Result (list B) :=
  match l with
  | [] => Ok []
  | x :: l' => y <- f x ;; ys <- mapM f l' ;; Ok (y :: ys)
  end.

(** [l[0]]. *)
Definition index0 {A} (l : list A) : Result A :=
  match l with x :: _ => Ok x | [] => Err IndexError end.

(** A Python object passed as a transform: callable or not. *)
Inductive PyObj : Type :=
| PyCallable (f : Value -> Value)
| PyData (v : Value).

Definition callable (o : PyObj) : bool :=
  match o with PyCallable _ => true | PyData _ => false end.

(** [zip( *ls)]: the tuples of the i-th elements, up to the shortest
    list; [zip()] with no argument is empty. *)
Fixpoint heads {A} (ls : list (list A)) : option (list A * list (list A)) :=
  match ls with
  | [] => Some ([], [])
  | [] :: _ => None
  | (x :: l) :: ls' =>
      match heads ls' with
      | Some (hs, ts) => Some (x :: hs, l :: ts)
      | None => None
      end
  end.

Fixpoint zip_fuel {A} (fuel : nat) (ls : list (list A)) : list (list A) :=
  match fuel with
  | 0 => []
  | S f =>
      match heads ls with
      | Some (hs, ts) => hs :: zip_fuel f ts
      | None => []
      end
  end.

Definition zipn {A} (ls : list (list A)) : list (list A) :=
  match ls with [] => [] | l :: _ => zip_fuel (List.length l) ls end.

End Py.
Import Py.

(* ------------------------------------------------------------------ *)
(** ** The pandas operations used by fuse.py *)

Module Pandas.

(** A Series: its labels and values, in order. *)
Definition Series (L A : Type) : Type := list (L * A).

(** Iterating a Series yields its values. *)
Definition values {L A} (s : Series L A) : list A := map snd s.

(** A DataFrame, column-major: the row labels (record ids) and the labelled
    columns. *)
Record Table : Type := mkTable {
  tbl_index : list Value;
  tbl_cols : list (Value * list Value)
}.

(** The first column carrying label [k]. *)
Definition find_col {A} (k : Value) (cols : list (Value * A)) : option A :=
  match find (fun c => value_eqb (fst c) k) cols with
  | Some (_, a) => Some a
  | None => None
  end.

(** [df[name]]: a column as a Series indexed by the row labels. *)
Definition get_column (t : Table) (name : Value) : Result (Series Value Value) :=
  match find_col name (tbl_cols t) with
  | Some vs => Ok (combine (tbl_index t) vs)
  | None => Err (KeyError name)
  end.

(** The values of [xs] without repeats, in order of first occurrence
    ([Index.unique()]). *)
Fixpoint unique_values (seen xs : list Value) : list Value :=
  match xs with
  | [] => []
  | x :: xs' =>
      if existsb (value_eqb x) seen then unique_values seen xs'
      else x :: unique_values (x :: seen) xs'
  end.

(** The entries of [s] labelled [id]. *)
Definition loc_rows (s : Series Value Value) (id : Value) : Series Value Value :=
  filter (fun kv => value_eqb (fst kv) id) s.

(** The labels of [ids] absent from [s], in the order of [ids]. *)
Definition loc_missing (s : Series Value Value) (ids : list Value) : list Value :=
  filter (fun id => negb (existsb (fun kv => value_eqb (fst kv) id) s)) ids.

(** [s.loc[ids]] with a list of labels (pandas >= 1.0): the entries of
    every label, in the order of [ids]. When a label is absent, it raises
    [KeyError] before selecting anything: ["None of [Index(ids)] are in
    the [index]"] when no label is found, ["[missing] not in index"]
    (the absent labels without repeats) otherwise; the payload holds the
    labels the message lists. *)
Definition loc (s : Series Value Value) (ids : list Value)
  : Result (Series Value Value) :=
  match loc_missing s ids with
  | [] => Ok (concat (map (loc_rows s) ids))
  | missing =>
      if Nat.eqb (length missing) (length ids) then Err (KeyError (VList ids))
      else Err (KeyError (VList (unique_values [] missing)))
  end.

(** Row labels of the Series built by the engine and of the fused table:
    a position of a RangeIndex, or a pair (A-id, B-id) of the pair index. *)
Inductive RowLabel : Type :=
| RPos (i : nat)
| RPair (a b : Value).

Definition rowlabel_eqb (x y : RowLabel) : bool :=
  match x, y with
  | RPos i, RPos j => Nat.eqb i j
  | RPair a b, RPair c d => value_eqb a c && value_eqb b d
  | _, _ => false
  end.

(** [pd.Series(xs)] with no index argument: a fresh RangeIndex [0..n-1]. *)
Definition series_of_list {A} (xs : list A) : Series RowLabel A :=
  combine (map RPos (seq 0 (length xs))) xs.

(** The row index of the comparison vectors: a two-level MultiIndex with
    optional level names and the (A-id, B-id) pairs in order. *)
Record PairIndex : Type := mkPairIndex {
  pi_names : option Value * option Value;
  pi_pairs : list (Value * Value)
}.

(** The labels of a pair index as the rows of a Series indexed by it. *)
Definition pair_labels (p : PairIndex) : list RowLabel :=
  map (fun ab => RPair (fst ab) (snd ab)) (pi_pairs p).

(** [MultiIndex.to_frame()] names column [i] by the level name, or by the
    integer [i] for an unnamed level. *)
Definition level_label (name : option Value) (i : Z) : Value :=
  match name with Some n => n | None => VInt i end.

Record Frame : Type := mkFrame {
  fr_cols : list (Value * list Value);
  fr_len : nat
}.

(** The two columns of [MultiIndex.to_frame()]. *)
Definition frame_of (p : PairIndex) : Frame :=
  mkFrame [(level_label (fst (pi_names p)) 0, map fst (pi_pairs p));
           (level_label (snd (pi_names p)) 1, map snd (pi_pairs p))]
          (length (pi_pairs p)).

(** [MultiIndex.to_frame()] (pandas >= 1.5, [allow_duplicates=False]):
    raises [ValueError] when the two column labels coincide. *)
Definition to_frame (p : PairIndex) : Result Frame :=
  if value_eqb (level_label (fst (pi_names p)) 0) (level_label (snd (pi_names p)) 1)
  then Err (ValueError "Cannot create duplicate column labels if allow_duplicates is False")
  else Ok (frame_of p).

(** [frame[k]]. *)
Definition frame_col (fr : Frame) (k : Value) : Result (list Value) :=
  match find_col k (fr_cols fr) with
  | Some vs => Ok vs
  | None => Err (KeyError k)
  end.

(** The fused DataFrame: row labels and labelled columns. *)
Record Fused : Type := mkFused {
  fu_index : list RowLabel;
  fu_cols : list (Value * list Value)
}.

(** Outer union of row indexes: the labels of the first index, then the
    labels of the next ones not seen yet. On the RangeIndexes the engine
    builds, this is the RangeIndex of the longest one. *)
Definition index_union (first : list RowLabel) (rest : list (list RowLabel))
  : list RowLabel :=
  fold_left (fun acc idx =>
               acc ++ filter (fun l => negb (existsb (rowlabel_eqb l) acc)) idx)
            rest first.

Definition lookup_row {A} (d : A) (l : RowLabel) (s : Series RowLabel A) : A :=
  match find (fun e => rowlabel_eqb (fst e) l) s with
  | Some (_, a) => a
  | None => d
  end.

(** [pd.concat(series, axis=1)] of unnamed Series: columns labelled
    [0..k-1], rows the union of the indexes, missing cells [NaN]; an empty
    list raises [ValueError]. *)
Definition concat_axis1 (ss : list (Series RowLabel Value)) : Result Fused :=
  match ss with
  | [] => Err (ValueError "No objects to concatenate")
  | s :: rest =>
      let idx := index_union (map fst s) (map (map fst) rest) in
      Ok (mkFused idx
            (combine (map (fun j => VInt (Z.of_nat j)) (seq 0 (length ss)))
                     (map (fun c => map (fun l => lookup_row VNone l c) idx) ss)))
  end.

End Pandas.
Import Pandas.

(* ------------------------------------------------------------------ *)
(** ** FuseCore and FuseLinks *)

Module Fuse.

(** An element of the Series passed to a strategy: [(values_tuple,)]
    without metadata, [(values_tuple, metadata_tuple)] with it. *)
Inductive Aligned : Type :=
| Rec1 (vs : list Value)
| Rec2 (vs ms : list Value).

Definition rec_values (r : Aligned) : list Value :=
  match r with Rec1 vs => vs | Rec2 vs _ => vs end.

(** A conflict resolution function, called as [fun(x, *params)]. The [nat]
    is the state of the [random] module, which randomized strategies read
    and advance; the others leave it alone. *)
Definition Strategy : Type := Aligned -> list Value -> nat -> Value * nat.

(** The dictionary appended by [queue_resolve]; its [kwargs] entry is
    never read and is left out. *)
Record Job : Type := mkJob {
  job_fun : Strategy;
  job_values_a : list Value;
  job_values_b : list Value;
  job_meta_a : option Value;
  job_meta_b : option Value;
  job_transform_vals : option PyObj;
  job_transform_meta : option PyObj;
  job_static_meta : bool;
  job_params : option (list Value)
}.

(** The attributes of a [FuseLinks] object. *)
Record Engine : Type := mkEngine {
  e_vectors : option PairIndex;
  e_index : option Frame;
  e_predictions : option Value;
  e_df_a : option Table;
  e_df_b : option Table;
  e_suffix_a : option string;
  e_suffix_b : option string;
  e_queue : list Job
}.

(** [FuseCore.__init__]. *)
Definition new_engine : Engine :=
  mkEngine None None None None None None None [].

(** [FuseCore.queue_resolve]: appends the job, no validation. *)
Definition queue_resolve (st : Engine) (f : Strategy) (values_a values_b : list Value)
  (meta_a meta_b : option Value) (transform_vals transform_meta : option PyObj)
  (static_meta : bool) (params : option (list Value)) : Engine :=
  mkEngine (e_vectors st) (e_index st) (e_predictions st) (e_df_a st) (e_df_b st)
    (e_suffix_a st) (e_suffix_b st)
    (e_queue st ++ [mkJob f values_a values_b meta_a meta_b transform_vals
                          transform_meta static_meta params]).

(** [queue_resolve(fun, values_a, values_b)] with every default. *)
Definition queue_resolve_defaults (st : Engine) (f : Strategy) (values_a values_b : list Value)
  : Engine :=
  queue_resolve st f values_a values_b None None None None false None.

(** [FuseCore._fusion_init]: the object afterwards, and whether the call
    raised. [self.vectors] is assigned first; when
    [vectors.index.to_frame()] raises, the other attributes keep their
    values. *)
Definition fusion_init_call (st : Engine) (vectors : PairIndex) (df_a df_b : option Table)
  (predictions : option Value) (suffix_a suffix_b : string) : Engine * Result unit :=
  match to_frame vectors with
  | Err e =>
      (mkEngine (Some vectors) (e_index st) (e_predictions st) (e_df_a st) (e_df_b st)
         (e_suffix_a st) (e_suffix_b st) (e_queue st), Err e)
  | Ok fr =>
      (mkEngine (Some vectors) (Some fr) predictions df_a df_b
         (Some suffix_a) (Some suffix_b) (e_queue st), Ok tt)
  end.

(** The object after [_fusion_init], whether or not it raised. *)
Definition fusion_init (st : Engine) (vectors : PairIndex) (df_a df_b : option Table)
  (predictions : option Value) (suffix_a suffix_b : string) : Engine :=
  fst (fusion_init_call st vectors df_a df_b predictions suffix_a suffix_b).

(** [recordlinkage.utils.listify] on a non-[None] argument. *)
Definition listify (v : Value) : list Value :=
  match v with VList l => l | _ => [v] end.

(** [self.index[k]] and [len(self.index)]. *)
Definition index_col (st : Engine) (k : Z) : Result (list Value) :=
  match e_index st with
  | Some fr => frame_col fr (VInt k)
  | None => Err TypeError
  end.

Definition index_len (st : Engine) : Result nat :=
  match e_index st with
  | Some fr => Ok (fr_len fr)
  | None => Err TypeError
  end.

(** [self.df_x[name].loc[list(self.index[k])]]. *)
Definition fetch_direct (st : Engine) (t : Table) (k : Z) (name : Value)
  : Result (list Value) :=
  s <- get_column t name ;;
  ids <- index_col st k ;;
  r <- loc s ids ;;
  Ok (values r).

(** [self.df_x[cols[0]]]: the whole first column, in table order. *)
Definition fetch_first_whole (t : Table) (cols : list Value) : Result (list Value) :=
  c <- index0 cols ;;
  s <- get_column t c ;;
  Ok (values s).

(** [pd.Series([c for _ in range(len(self.index))], index=self.index[k])]. *)
Definition static_series (st : Engine) (k : Z) (c : Value) : Result (list Value) :=
  n <- index_len st ;;
  _ <- index_col st k ;;
  Ok (repeat c n).

(** How the metadata arguments were read: [use_meta] false, static, or
    listified column names. *)
Inductive MetaMode : Type :=
| NoMeta
| StaticMeta (ca cb : Value)
| ColMeta (ma mb : list Value).

Definition meta_mode (meta_a meta_b : option Value) (static_meta : bool)
  : Result MetaMode :=
  match meta_a, meta_b with
  | None, None => Ok NoMeta
  | Some a, Some b =>
      if static_meta then Ok (StaticMeta a b) else Ok (ColMeta (listify a) (listify b))
  | _, _ => Err (AssertionError
                   "Metadata was given for one Data Frame but not the other.")
  end.

(** [(generalize_values_x, generalize_meta_x)] for one side. *)
Definition gen_flags (vals metas : list Value) : bool * bool :=
  if length vals <? length metas then (true, false)
  else if length metas <? length vals then (false, true)
  else (false, false).

(** The flags of both sides; [None] (no metadata, or static metadata)
    behaves as [False] in every [is True] test. *)
Definition gen_all (mode : MetaMode) (va vb : list Value) : (bool * bool) * (bool * bool) :=
  match mode with
  | ColMeta ma mb => (gen_flags va ma, gen_flags vb mb)
  | _ => ((false, false), (false, false))
  end.

Definition meta_cols_a (mode : MetaMode) : list Value :=
  match mode with ColMeta ma _ => ma | _ => [] end.

Definition meta_cols_b (mode : MetaMode) : list Value :=
  match mode with ColMeta _ mb => mb | _ => [] end.

(** The [data_a] / [data_b] loops. *)
Definition collect_values (st : Engine) (t : Table) (k : Z) (vals metas : list Value)
  (gen_values : bool) : Result (list (list Value)) :=
  if gen_values then mapM (fun _ => fetch_first_whole t vals) (seq 0 (length metas))
  else mapM (fetch_direct st t k) vals.

(** The [metadata_a] / [metadata_b] loops. *)
Definition collect_meta (st : Engine) (t : Table) (k : Z) (static : option Value)
  (vals metas : list Value) (gen_meta : bool) : Result (list (list Value)) :=
  match static with
  | Some c => mapM (fun _ => static_series st k c) (seq 0 (length vals))
  | None =>
      if gen_meta then mapM (fun _ => fetch_first_whole t metas) (seq 0 (length vals))
      else mapM (fetch_direct st t k) metas
  end.

Definition opt_callable (o : option PyObj) : bool :=
  match o with None => true | Some p => callable p end.

(** [[s.apply(f) for s in data]] when a transform is given. *)
Definition apply_transform (o : option PyObj) (data : list (list Value)) : list (list Value) :=
  match o with
  | Some (PyCallable f) => map (map f) data
  | _ => data
  end.

(** The function a transform applies to each element. *)
Definition transform_value (o : option PyObj) (v : Value) : Value :=
  match o with Some (PyCallable f) => f v | _ => v end.

(** [FuseLinks._make_resolution_series]. *)
Definition make_resolution_series (st : Engine) (values_a values_b : list Value)
  (meta_a meta_b : option Value) (transform_vals transform_meta : option PyObj)
  (static_meta : bool) : Result (Series RowLabel Aligned) :=
  match e_df_a st, e_df_b st with
  | None, _ => Err (AssertionError "df_a is None")
  | _, None => Err (AssertionError "df_b is None")
  | Some ta, Some tb =>
    if negb (opt_callable transform_vals) then Err (ValueError "transform_vals must be callable.")
    else if negb (opt_callable transform_meta) then Err (ValueError "transform_meta must be callable.")
    else
    mode <- meta_mode meta_a meta_b static_meta ;;
    let '((gva, gma), (gvb, gmb)) := gen_all mode values_a values_b in
    data_a <- collect_values st ta 0 values_a (meta_cols_a mode) gva ;;
    data_b <- collect_values st tb 1 values_b (meta_cols_b mode) gvb ;;
    let value_data := zipn (apply_transform transform_vals (data_a ++ data_b)) in
    match mode with
    | NoMeta => Ok (series_of_list (map Rec1 value_data))
    | _ =>
      let '(sa, sb) := match mode with
                       | StaticMeta ca cb => (Some ca, Some cb)
                       | _ => (None, None)
                       end in
      metadata_a <- collect_meta st ta 0 sa values_a (meta_cols_a mode) gma ;;
      metadata_b <- collect_meta st tb 1 sb values_b (meta_cols_b mode) gmb ;;
      let metadata := zipn (apply_transform transform_meta (metadata_a ++ metadata_b)) in
      Ok (series_of_list (map (fun vm => Rec2 (fst vm) (snd vm))
                              (combine value_data metadata)))
    end
  end.

(** The call made by [fuse] for one queued job. *)
Definition job_series (st : Engine) (j : Job) : Result (Series RowLabel Aligned) :=
  make_resolution_series st (job_values_a j) (job_values_b j) (job_meta_a j)
    (job_meta_b j) (job_transform_vals j) (job_transform_meta j) (job_static_meta j).

(** [Series.apply(fun, args=params)]: pandas passes [args or ()], so
    [params=None] adds no argument. *)
Definition params_args (params : option (list Value)) : list Value :=
  match params with Some a => a | None => [] end.

Fixpoint apply_series {A} (g : A -> nat -> Value * nat) (s : Series RowLabel A)
  (rng : nat) : Series RowLabel Value * nat :=
  match s with
  | [] => ([], rng)
  | (l, x) :: s' =>
      let '(v, rng1) := g x rng in
      let '(r, rng2) := apply_series g s' rng1 in
      ((l, v) :: r, rng2)
  end.

(** [FuseCore.resolve]. *)
Definition resolve (f : Strategy) (data : Series RowLabel Aligned)
  (params : option (list Value)) (rng : nat) : Series RowLabel Value * nat :=
  apply_series (fun x r => f x (params_args params) r) data rng.

(** The loop of [fuse] over the queue; the first exception stops it. *)
Fixpoint run_jobs (st : Engine) (q : list Job) (rng : nat)
  : Result (list (Series RowLabel Value)) * nat :=
  match q with
  | [] => (Ok [], rng)
  | j :: q' =>
      match job_series st j with
      | Err e => (Err e, rng)
      | Ok data =>
          let '(col, rng1) := resolve (job_fun j) data (job_params j) rng in
          let '(r, rng2) := run_jobs st q' rng1 in
          (match r with Ok cols => Ok (col :: cols) | Err e => Err e end, rng2)
      end
  end.

(** [FuseCore.fuse] for [FuseLinks] (whose [_fusion_setup] does nothing):
    the updated object, the random state and the result. *)
Definition fuse (st : Engine) (vectors : PairIndex) (df_a df_b : option Table)
  (predictions : option Value) (suffix_a suffix_b : string) (rng : nat)
  : Engine * nat * Result Fused :=
  let '(st1, r0) := fusion_init_call st vectors df_a df_b predictions suffix_a suffix_b in
  match r0 with
  | Err e => (st1, rng, Err e)
  | Ok _ =>
      let '(r, rng1) := run_jobs st1 (e_queue st1) rng in
      (st1, rng1, match r with Ok cols => concat_axis1 cols | Err e => Err e end)
  end.

End Fuse.
Import Fuse.

(* ------------------------------------------------------------------ *)
(** ** The queue wrappers and the base class *)

Module FuseWrappers.

(** [FuseCore.trust_your_friends]. The strategies of
    [recordlinkage.algorithms.conflict_resolution] ([choose], [no_gossip],
    [choose_random], [vote]) are arguments. *)
Definition trust_your_friends (choose : Strategy) (st : Engine) (c1 c2 : list Value)
  (trusted : Value) : Engine :=
  queue_resolve st choose c1 c2 (Some (VStr "a"%string)) (Some (VStr "b"%string))
    None None true (Some [trusted]).

(** [FuseCore.no_gossiping]. *)
Definition no_gossiping (no_gossip : Strategy) (st : Engine) (c1 c2 : list Value) : Engine :=
  queue_resolve_defaults st no_gossip c1 c2.

(** [FuseCore.roll_the_dice]. *)
Definition roll_the_dice (choose_random : Strategy) (st : Engine) (c1 c2 : list Value) : Engine :=
  queue_resolve_defaults st choose_random c1 c2.

(** [FuseCore.cry_with_the_wolves]. *)
Definition cry_with_the_wolves (vote : Strategy) (st : Engine) (c1 c2 : list Value) : Engine :=
  queue_resolve_defaults st vote c1 c2.

(** The loop of [FuseCore.fuse] for a class whose [_make_resolution_series]
    is [mrs]. *)
Fixpoint run_jobs_with (mrs : Engine -> Job -> Result (Series RowLabel Aligned))
  (st : Engine) (q : list Job) (rng : nat)
  : Result (list (Series RowLabel Value)) * nat :=
  match q with
  | [] => (Ok [], rng)
  | j :: q' =>
      match mrs st j with
      | Err e => (Err e, rng)
      | Ok data =>
          let '(col, rng1) := resolve (job_fun j) data (job_params j) rng in
          let '(r, rng2) := run_jobs_with mrs st q' rng1 in
          (match r with Ok cols => Ok (col :: cols) | Err e => Err e end, rng2)
      end
  end.

(** [FuseCore.fuse] for a class whose [_fusion_setup] does nothing and
    whose [_make_resolution_series] is [mrs]. *)
Definition fuse_with (mrs : Engine -> Job -> Result (Series RowLabel Aligned))
  (st : Engine) (vectors : PairIndex) (df_a df_b : option Table)
  (predictions : option Value) (suffix_a suffix_b : string) (rng : nat)
  : Engine * nat * Result Fused :=
  let '(st1, r0) := fusion_init_call st vectors df_a df_b predictions suffix_a suffix_b in
  match r0 with
  | Err e => (st1, rng, Err e)
  | Ok _ =>
      let '(r, rng1) := run_jobs_with mrs st1 (e_queue st1) rng in
      (st1, rng1, match r with Ok cols => concat_axis1 cols | Err e => Err e end)
  end.

(** [FuseCore._make_resolution_series]: [pd.Series()] for every job. *)
Definition core_job_series (st : Engine) (j : Job) : Result (Series RowLabel Aligned) := Ok [].

(** [FuseCore().fuse(...)]: the base class, used directly. *)
Definition fuse_core : Engine -> PairIndex -> option Table -> option Table -> option Value ->
  string -> string -> nat -> Engine * nat * Result Fused :=
  fuse_with core_job_series.

End FuseWrappers.
Import FuseWrappers.

(* ------------------------------------------------------------------ *)
(** ** Concrete inputs *)

Module Samples.
Local Open Scope string_scope.

(** Table A has two records; record [a2] is the one matched. *)
Definition table_a : Table :=
  mkTable [VStr "a1"; VStr "a2"]
    [(VStr "v", [VStr "p"; VStr "q"]);
     (VStr "m1", [VInt 1; VInt 2]);
     (VStr "m2", [VInt 3; VInt 4]);
     (VStr "m3", [VInt 5; VInt 6])].

Definition table_b : Table :=
  mkTable [VStr "b1"] [(VStr "w", [VStr "r"]); (VStr "n", [VInt 7])].

(** One pair, unnamed levels. *)
Definition pairs_1 : PairIndex := mkPairIndex (None, None) [(VStr "a2", VStr "b1")].

(** No pair. *)
Definition pairs_0 : PairIndex := mkPairIndex (None, None) [].


(** One pair, both levels named ["id"]. *)
Definition pairs_same_names : PairIndex :=
  mkPairIndex (Some (VStr "id"), Some (VStr "id")) [(VStr "a2", VStr "b1")].

(** A strategy returning the first candidate value. *)
Definition first_value : Strategy :=
  fun r _ rng => (hd VNone (rec_values r), rng).

(** A strategy that draws from the random state. *)
Definition pick_random : Strategy :=
  fun r _ rng => (nth (rng mod length (rec_values r)) (rec_values r) VNone, S rng).

(** A strategy returning its first extra argument. *)
Definition first_param : Strategy :=
  fun _ args rng => (hd VNone args, rng).

(** Side A: one value column [v], three metadata columns [m1 m2 m3]. *)
Definition broadcast_job : Engine :=
  queue_resolve new_engine first_value [VStr "v"] [VStr "w"]
    (Some (VList [VStr "m1"; VStr "m2"; VStr "m3"])) (Some (VStr "n"))
    None None false None.

(** One value column per side, no metadata. *)
Definition plain_job : Engine := queue_resolve_defaults new_engine first_value [VStr "v"] [VStr "w"].

(** Two pairs, matched record [a2] first. *)
Definition pairs_2 : PairIndex :=
  mkPairIndex (None, None) [(VStr "a2", VStr "b1"); (VStr "a1", VStr "b1")].

(** [plain_job], then a job whose strategy returns its parameter ["t"]. *)
Definition param_job : Engine :=
  queue_resolve plain_job first_param [VStr "v"] [VStr "w"] None None None None false
    (Some [VStr "t"]).

(** One randomized job. *)
Definition random_job : Engine :=
  queue_resolve_defaults new_engine pick_random [VStr "v"] [VStr "w"].

(** [plain_job], then a job reading no column at all. *)
Definition padded_job : Engine := queue_resolve_defaults plain_job first_value [] [].

(** [plain_job], then a job with metadata for side A only, then a
    randomized job. *)
Definition failing_job : Engine :=
  queue_resolve_defaults
    (queue_resolve plain_job first_value [VStr "v"] [VStr "w"] (Some (VStr "m1")) None
       None None false None)
    pick_random [VStr "v"] [VStr "w"].

(** The engine after [_fusion_init] on [pairs_2] and the two tables. *)
Definition linked : Engine :=
  fusion_init new_engine pairs_2 (Some table_a) (Some table_b) None "_a" "_b".

End Samples.
Import Samples.

(* ------------------------------------------------------------------ *)
(** ** Conditions used by the statements *)

(** The configuration checks of [_make_resolution_series], as a test on
    a job and the two tables. *)
Definition passes_checks (dfa dfb : option Table) (j : Job) : bool :=
  match dfa, dfb with Some _, Some _ => true | _, _ => false end &&
  opt_callable (job_transform_vals j) && opt_callable (job_transform_meta j) &&
  Bool.eqb (match job_meta_a j with None => true | Some _ => false end)
           (match job_meta_b j with None => true | Some _ => false end).


(** The value of a Series at label [id]: its first entry with that label. *)
Definition lookup_label (s : Series Value Value) (id : Value) : option Value :=
  match find (fun kv => value_eqb (fst kv) id) s with
  | Some (_, v) => Some v
  | None => None
  end.

(** The cell of column [name] at record id [id] of a table. *)
Definition cell (t : Table) (name id : Value) : option Value :=
  match get_column t name with
  | Ok s => lookup_label s id
  | Err _ => None
  end.

Fixpoint nodupb (l : list Value) : bool :=
  match l with
  | [] => true
  | x :: l' => negb (existsb (value_eqb x) l') && nodupb l'
  end.

(** A table keyed by record id: no id appears twice in its row index. *)
Definition table_keyed (t : Table) : bool := nodupb (tbl_index t).

(** The table has a column labelled [name]. *)
Definition has_col (t : Table) (name : Value) : bool :=
  match find_col name (tbl_cols t) with Some _ => true | None => false end.

Definition is_nil {A} (l : list A) : bool :=
  match l with [] => true | _ => false end.

(** The columns one side of a job names exist in its table, and, for
    metadata read from columns, the side declares value columns exactly
    when it declares metadata columns (so that [values[0]] and [meta[0]]
    exist whenever a side is generalized). *)
Definition side_valid (t : Table) (vals : list Value) (meta : option Value) (static : bool)
  : bool :=
  forallb (has_col t) vals &&
  match meta with
  | Some m =>
      if static then true
      else forallb (has_col t) (listify m) && Bool.eqb (is_nil vals) (is_nil (listify m))
  | None => true
  end.

(** A valid job on tables [ta] and [tb]. *)
Definition job_valid (ta tb : Table) (j : Job) : bool :=
  passes_checks (Some ta) (Some tb) j &&
  side_valid ta (job_values_a j) (job_meta_a j) (job_static_meta j) &&
  side_valid tb (job_values_b j) (job_meta_b j) (job_static_meta j).

(** None of the four [generalize_*] flags of a call is [True]. *)
Definition no_generalization (va vb : list Value) (ma mb : option Value) (sm : bool) : bool :=
  match meta_mode ma mb sm with
  | Ok mode =>
      match gen_all mode va vb with
      | ((false, false), (false, false)) => true
      | _ => false
      end
  | Err _ => true
  end.


(* ------------------------------------------------------------------ *)
(** ** General lemmas *)

Lemma value_eqb_eq : forall x y, value_eqb x y = true <-> x = y.
Proof.
  induction x as [a|s| |l IH] using Value_ind'; intros [b|t| |m]; simpl;
    split; intros H; try discriminate; try reflexivity.
  - apply Z.eqb_eq in H; subst; reflexivity.
  - inversion H; subst; apply Z.eqb_refl.
  - apply String.eqb_eq in H; subst; reflexivity.
  - inversion H; subst; apply String.eqb_refl.
  - f_equal. revert m H. induction IH as [|x l Hx Hl IHl]; intros [|y m] H;
      try discriminate; try reflexivity.
    apply andb_true_iff in H as [H1 H2].
    apply Hx in H1; subst. f_equal. apply IHl in H2. congruence.
  - inversion H; subst. clear H. induction IH as [|x l Hx Hl IHl]; [reflexivity|].
    apply andb_true_iff; split; [apply Hx; reflexivity|exact IHl].
Qed.

Lemma value_eqb_refl : forall x, value_eqb x x = true.
Proof. intros x; apply value_eqb_eq; reflexivity. Qed.


Lemma mapM_length {A B} (f : A -> Result B) :
  forall l ys, mapM f l = Ok ys -> length ys = length l.
Proof.
  induction l as [|x l IH]; simpl; intros ys H.
  - inversion H; reflexivity.
  - destruct (f x); simpl in H; [|discriminate].
    destruct (mapM f l) eqn:E; simpl in H; inversion H; subst; simpl.
    f_equal; apply IH; reflexivity.
Qed.

Lemma mapM_Forall2 {A B} (f : A -> Result B) :
  forall l ys, mapM f l = Ok ys -> Forall2 (fun x y => f x = Ok y) l ys.
Proof.
  induction l as [|x l IH]; simpl; intros ys H.
  - inversion H; constructor.
  - destruct (f x) eqn:Ef; simpl in H; [|discriminate].
    destruct (mapM f l) eqn:E; simpl in H; inversion H; subst.
    constructor; [exact Ef|apply IH; reflexivity].
Qed.

Lemma mapM_err {A B} (f : A -> Result B) :
  forall l e, mapM f l = Err e -> exists x, In x l /\ f x = Err e.
Proof.
  induction l as [|x l IH]; simpl; intros e H; [discriminate|].
  destruct (f x) eqn:Ef; simpl in H.
  - destruct (mapM f l) eqn:E; simpl in H; [discriminate|].
    inversion H; subst. destruct (IH e eq_refl) as [y [Hy Hf]].
    exists y; split; [right; exact Hy|exact Hf].
  - inversion H; subst. exists x; split; [left; reflexivity|exact Ef].
Qed.

(** A loop whose body raises on every element raises on a non-empty list. *)
Lemma mapM_all_err {A B} (f : A -> Result B) (P : PyErr -> Prop) :
  forall l, l <> [] -> (forall x, In x l -> exists e, f x = Err e /\ P e) ->
  exists e, mapM f l = Err e /\ P e.
Proof.
  intros [|x l] Hne H; [congruence|].
  destruct (H x (or_introl eq_refl)) as [e [He HP]].
  exists e; simpl; rewrite He; split; [reflexivity|exact HP].
Qed.

(* ------------------------------------------------------------------ *)
(** ** Shape of the series built *)

Lemma map_fst_combine {A B} : forall (l : list A) (l' : list B),
  length l = length l' -> map fst (combine l l') = l.
Proof.
  induction l as [|x l IH]; intros [|y l'] H; simpl in *; try discriminate; [reflexivity|].
  f_equal; apply IH; congruence.
Qed.

Lemma map_snd_combine {A B} : forall (l : list A) (l' : list B),
  length l = length l' -> map snd (combine l l') = l'.
Proof.
  induction l as [|x l IH]; intros [|y l'] H; simpl in *; try discriminate; [reflexivity|].
  f_equal; apply IH; congruence.
Qed.

Lemma series_of_list_labels {A} (xs : list A) :
  map fst (series_of_list xs) = map RPos (seq 0 (length xs)).
Proof.
  unfold series_of_list. rewrite map_fst_combine; [reflexivity|].
  rewrite length_map, length_seq; reflexivity.
Qed.

Lemma series_of_list_values {A} (xs : list A) : values (series_of_list xs) = xs.
Proof.
  unfold values, series_of_list. rewrite map_snd_combine; [reflexivity|].
  rewrite length_map, length_seq; reflexivity.
Qed.

Lemma apply_series_labels {A} (g : A -> nat -> Value * nat) :
  forall s rng, map fst (fst (apply_series g s rng)) = map fst s.
Proof.
  induction s as [|[l x] s IH]; intros rng; simpl; [reflexivity|].
  destruct (g x rng) as [v r1]. specialize (IH r1).
  destruct (apply_series g s r1) as [r r2]. simpl in *. f_equal; exact IH.
Qed.

Ltac crush_binds H :=
  repeat match type of H with
  | context [match ?m with Ok _ => _ | Err _ => _ end] =>
      let E := fresh "E" in destruct m eqn:E; cbn beta iota in H
  | context [if ?b then _ else _] =>
      let E := fresh "E" in destruct b eqn:E; cbn beta iota in H
  | context [match ?m with Some _ => _ | None => _ end] =>
      let E := fresh "E" in destruct m eqn:E; cbn beta iota in H
  | context [match ?m with NoMeta => _ | StaticMeta _ _ => _ | ColMeta _ _ => _ end] =>
      let E := fresh "E" in destruct m eqn:E; cbn beta iota in H
  | context [match ?p with (_, _) => _ end] =>
      let E := fresh "E" in destruct p eqn:E; cbn beta iota in H
  end.

(** The alignment returns a fresh positional Series. *)
Lemma make_resolution_series_shape st va vb ma mb tv tm sm data :
  make_resolution_series st va vb ma mb tv tm sm = Ok data ->
  exists xs, data = series_of_list xs.
Proof.
  intros H. unfold make_resolution_series, bind in H.
  crush_binds H; try discriminate; injection H as <-; eexists; reflexivity.
Qed.

(** Each column produced by the loop of [fuse] is the resolved Series of
    its job, in queue order. *)
Lemma run_jobs_ok st :
  forall q rng cols rng', run_jobs st q rng = (Ok cols, rng') ->
  Forall2 (fun j c => exists data r0, job_series st j = Ok data /\
                        c = fst (resolve (job_fun j) data (job_params j) r0)) q cols.
Proof.
  induction q as [|j q IH]; simpl; intros rng cols rng' H.
  - inversion H; constructor.
  - destruct (job_series st j) as [data|e] eqn:Ej; [|discriminate].
    destruct (resolve (job_fun j) data (job_params j) rng) as [col r1] eqn:Er.
    destruct (run_jobs st q r1) as [[cs|e] r2] eqn:Eq; inversion H; subst.
    constructor.
    + exists data, rng; split; [exact Ej|rewrite Er; reflexivity].
    + eapply IH; exact Eq.
Qed.

Lemma run_jobs_err st :
  forall q rng e rng', run_jobs st q rng = (Err e, rng') ->
  exists j, In j q /\ job_series st j = Err e.
Proof.
  induction q as [|j q IH]; simpl; intros rng e rng' H; [discriminate|].
  destruct (job_series st j) as [data|e'] eqn:Ej.
  - destruct (resolve (job_fun j) data (job_params j) rng) as [col r1].
    destruct (run_jobs st q r1) as [[cs|e'] r2] eqn:Eq; inversion H; subst.
    destruct (IH _ _ _ Eq) as [j' [Hin Hj]]. exists j'; split; [right|]; assumption.
  - inversion H; subst. exists j; split; [left; reflexivity|exact Ej].
Qed.

Lemma resolve_labels f data params rng :
  map fst (fst (resolve f data params rng)) = map fst data.
Proof. apply apply_series_labels. Qed.

Lemma existsb_pos i n :
  existsb (rowlabel_eqb (RPos i)) (map RPos (seq 0 n)) = (i <? n).
Proof.
  induction n as [|n IH]; [reflexivity|].
  rewrite seq_S, map_app, existsb_app, IH; simpl.
  destruct (Nat.ltb_spec i n), (Nat.eqb_spec i n), (Nat.ltb_spec i (S n)); simpl; lia.
Qed.

Lemma filter_pos n m :
  filter (fun l => negb (existsb (rowlabel_eqb l) (map RPos (seq 0 n))))
         (map RPos (seq 0 m)) = map RPos (seq n (m - n)).
Proof.
  induction m as [|m IH]; [reflexivity|].
  rewrite seq_S, map_app, filter_app, IH. cbn [map filter Nat.add].
  rewrite existsb_pos. destruct (Nat.ltb_spec m n); cbn [negb].
  - replace (S m - n) with 0 by lia. replace (m - n) with 0 by lia. reflexivity.
  - replace (S m - n) with (S (m - n)) by lia. rewrite (seq_S (m - n)), map_app.
    replace (n + (m - n)) with m by lia. reflexivity.
Qed.

Lemma index_union_pos :
  forall ms n, index_union (map RPos (seq 0 n)) (map (fun m => map RPos (seq 0 m)) ms)
             = map RPos (seq 0 (fold_left Nat.max ms n)).
Proof.
  unfold index_union. induction ms as [|m ms IH]; intros n; simpl; [reflexivity|].
  rewrite filter_pos, <- map_app.
  replace (seq 0 n ++ seq n (m - n)) with (seq 0 (Nat.max n m)); [apply IH|].
  replace (Nat.max n m) with (n + (m - n)) by lia. rewrite seq_app. reflexivity.
Qed.

Lemma concat_axis1_pos ss t :
  Forall (fun c => map fst c = map RPos (seq 0 (length c))) ss ->
  concat_axis1 ss = Ok t ->
  map fst (fu_cols t) = map (fun j => VInt (Z.of_nat j)) (seq 0 (length ss)) /\
  fu_index t = map RPos (seq 0 (fold_left Nat.max (map (@length _) ss) 0)).
Proof.
  intros Hpos H. unfold concat_axis1 in H.
  destruct ss as [|s rest]; cbv beta iota in H; [discriminate|].
  injection H as <-. cbn [fu_cols fu_index]. split.
  - simpl. f_equal. apply map_fst_combine. rewrite !length_map, length_seq; reflexivity.
  - inversion Hpos as [|? ? Hs Hrest]; subst. rewrite Hs.
    replace (fold_left Nat.max (map (@length _) (s :: rest)) 0)
      with (fold_left Nat.max (map (@length _) rest) (length s)) by reflexivity.
    replace (map (map fst) rest) with (map (fun m => map RPos (seq 0 m)) (map (@length _) rest)).
    + apply index_union_pos.
    + rewrite map_map. clear Hs Hpos. induction Hrest as [|c rest Hc _ IH]; simpl; [reflexivity|].
      rewrite Hc, IH; reflexivity.
Qed.

Lemma apply_series_values {A} (g : A -> nat -> Value * nat) :
  forall s rng, Forall2 (fun x v => exists r, v = fst (g x r))
                        (values s) (values (fst (apply_series g s rng))).
Proof.
  induction s as [|[l x] s IH]; intros rng; simpl; [constructor|].
  destruct (g x rng) as [v r1] eqn:Eg. specialize (IH r1).
  destruct (apply_series g s r1) as [r r2]. simpl in *.
  constructor; [exists rng; rewrite Eg; reflexivity|exact IH].
Qed.

Lemma fusion_init_queue st p dfa dfb pred sa sb :
  e_queue (fusion_init st p dfa dfb pred sa sb) = e_queue st.
Proof. unfold fusion_init, fusion_init_call. destruct (to_frame p); reflexivity. Qed.

Lemma fusion_init_same_queue st1 st2 p dfa dfb pred sa sb fr :
  to_frame p = Ok fr -> e_queue st1 = e_queue st2 ->
  fusion_init st1 p dfa dfb pred sa sb = fusion_init st2 p dfa dfb pred sa sb.
Proof. intros Hf H; unfold fusion_init, fusion_init_call; rewrite Hf, H; reflexivity. Qed.

Lemma fusion_init_framed st p dfa dfb pred sa sb fr :
  to_frame p = Ok fr ->
  fusion_init st p dfa dfb pred sa sb
  = mkEngine (Some p) (Some fr) pred dfa dfb (Some sa) (Some sb) (e_queue st).
Proof. intros Hf; unfold fusion_init, fusion_init_call; rewrite Hf; reflexivity. Qed.

(** [fuse] once [_fusion_init] has returned. *)
Lemma fuse_framed st p dfa dfb pred sa sb rng fr :
  to_frame p = Ok fr ->
  fuse st p dfa dfb pred sa sb rng =
  let st1 := fusion_init st p dfa dfb pred sa sb in
  let '(r, rng1) := run_jobs st1 (e_queue st) rng in
  (st1, rng1, match r with Ok cols => concat_axis1 cols | Err e => Err e end).
Proof. intros Hf. unfold fuse, fusion_init, fusion_init_call. rewrite Hf. reflexivity. Qed.

(** [fuse] when [_fusion_init] raises. *)
Lemma fuse_unframed st p dfa dfb pred sa sb rng e :
  to_frame p = Err e ->
  fuse st p dfa dfb pred sa sb rng = (fusion_init st p dfa dfb pred sa sb, rng, Err e).
Proof. intros Hf. unfold fuse, fusion_init, fusion_init_call. rewrite Hf. reflexivity. Qed.

(** Two engines with the same queue: the same result and random state,
    and the same engine once [_fusion_init] has returned. *)
Lemma fuse_same_queue st1 st2 p dfa dfb pred sa sb rng :
  e_queue st1 = e_queue st2 ->
  snd (fst (fuse st1 p dfa dfb pred sa sb rng)) = snd (fst (fuse st2 p dfa dfb pred sa sb rng)) /\
  snd (fuse st1 p dfa dfb pred sa sb rng) = snd (fuse st2 p dfa dfb pred sa sb rng) /\
  (forall fr, to_frame p = Ok fr ->
     fuse st1 p dfa dfb pred sa sb rng = fuse st2 p dfa dfb pred sa sb rng).
Proof.
  intros Hq. destruct (to_frame p) as [fr|e] eqn:Hf.
  - assert (E : fuse st1 p dfa dfb pred sa sb rng = fuse st2 p dfa dfb pred sa sb rng).
    { rewrite (fuse_framed st1 _ _ _ _ _ _ _ _ Hf), (fuse_framed st2 _ _ _ _ _ _ _ _ Hf).
      rewrite (fusion_init_same_queue st1 st2 _ _ _ _ _ _ _ Hf Hq), Hq. reflexivity. }
    rewrite E. auto.
  - rewrite (fuse_unframed st1 _ _ _ _ _ _ _ _ Hf), (fuse_unframed st2 _ _ _ _ _ _ _ _ Hf).
    split; [reflexivity|split; [reflexivity|intros fr H; discriminate]].
Qed.

(** With unnamed levels, [to_frame] does not raise. *)
Lemma to_frame_unnamed p : pi_names p = (None, None) -> to_frame p = Ok (frame_of p).
Proof. intros Hn. unfold to_frame. rewrite Hn. reflexivity. Qed.

Lemma job_series_positional st j data :
  job_series st j = Ok data -> map fst data = map RPos (seq 0 (length data)).
Proof.
  intros H. apply make_resolution_series_shape in H as [xs ->].
  rewrite series_of_list_labels. unfold series_of_list.
  rewrite length_combine, length_map, length_seq, Nat.min_id. reflexivity.
Qed.

(* ------------------------------------------------------------------ *)
(** ** [zip] *)

Lemma heads_none {A} (ls : list (list A)) : In [] ls -> heads ls = None.
Proof.
  induction ls as [|l ls IH]; simpl; [tauto|]. intros [Hl|Hin]; [subst l; reflexivity|].
  destruct l; [reflexivity|]. rewrite IH by exact Hin. reflexivity.
Qed.

Lemma zipn_nil_column {A} (ls : list (list A)) : In [] ls -> zipn ls = [].
Proof.
  intros Hin. destruct ls as [|l ls']; [reflexivity|]. unfold zipn.
  destruct (length l) as [|n]; [reflexivity|]. cbn [zip_fuel].
  rewrite (heads_none (l :: ls') Hin). reflexivity.
Qed.

Lemma zipn_all_nil {A} (l : list A) : zipn (map (fun _ => @nil A) l) = [].
Proof.
  destruct l as [|x l]; [reflexivity|]. apply zipn_nil_column. left; reflexivity.
Qed.

Lemma heads_some {A} (ls : list (list A)) hs ts :
  heads ls = Some (hs, ts) ->
  Forall2 (fun l x => nth_error l 0 = Some x) ls hs /\
  Forall2 (fun l t => exists h, l = h :: t) ls ts.
Proof.
  revert hs ts. induction ls as [|l ls IH]; simpl; intros hs ts H.
  - inversion H; split; constructor.
  - destruct l as [|x l]; [discriminate|].
    destruct (heads ls) as [[hs' ts']|] eqn:E; [|discriminate].
    inversion H; subst. destruct (IH hs' ts' eq_refl) as [H1 H2].
    split; constructor; try assumption; [reflexivity|eexists; reflexivity].
Qed.

(** The [i]-th tuple of [zip] holds the [i]-th element of every list. *)
Lemma zip_fuel_nth {A} :
  forall f (ls : list (list A)) i row,
  nth_error (zip_fuel f ls) i = Some row ->
  Forall2 (fun l x => nth_error l i = Some x) ls row.
Proof.
  induction f as [|f IH]; intros ls i row H; simpl in H; [destruct i; discriminate|].
  destruct (heads ls) as [[hs ts]|] eqn:E; [|destruct i; discriminate].
  destruct (heads_some _ _ _ E) as [H0 Ht].
  destruct i as [|i]; simpl in H.
  - inversion H; subst; exact H0.
  - specialize (IH ts i row H). clear H0 E H.
    revert row IH. induction Ht as [|l t ls ts [h ->] _ IHt]; intros row IH.
    + inversion IH; constructor.
    + inversion IH; subst. constructor; [assumption|apply IHt; assumption].
Qed.

Lemma zipn_nth {A} (ls : list (list A)) i row :
  nth_error (zipn ls) i = Some row ->
  Forall2 (fun l x => nth_error l i = Some x) ls row.
Proof.
  unfold zipn. destruct ls as [|l ls]; [destruct i; discriminate|]. apply zip_fuel_nth.
Qed.

Lemma heads_length {A} n (ls : list (list A)) :
  Forall (fun l => length l = S n) ls ->
  exists hs ts, heads ls = Some (hs, ts) /\ Forall (fun t => length t = n) ts.
Proof.
  induction 1 as [|l ls Hl _ IH]; simpl.
  - exists [], []; split; [reflexivity|constructor].
  - destruct l as [|x l]; [discriminate|]. destruct IH as [hs [ts [E Hts]]].
    rewrite E. eexists _, _; split; [reflexivity|]. constructor; [simpl in Hl; lia|exact Hts].
Qed.

Lemma zip_fuel_length {A} :
  forall n (ls : list (list A)), Forall (fun l => length l = n) ls ->
  length (zip_fuel n ls) = n.
Proof.
  induction n as [|n IH]; intros ls H; [reflexivity|].
  destruct (heads_length n ls H) as [hs [ts [E Hts]]]. simpl. rewrite E. simpl.
  f_equal. apply IH; exact Hts.
Qed.

Lemma zipn_length {A} n (ls : list (list A)) :
  ls <> [] -> Forall (fun l => length l = n) ls -> length (zipn ls) = n.
Proof.
  intros Hne H. destruct ls as [|l ls']; [congruence|]. unfold zipn.
  inversion H; subst. apply zip_fuel_length; exact H.
Qed.

Lemma apply_transform_map o data :
  apply_transform o data = map (map (transform_value o)) data.
Proof.
  destruct o as [[f|v]|]; simpl; [reflexivity| |];
    rewrite <- (map_id data) at 1; apply map_ext; intros l; rewrite map_id; reflexivity.
Qed.

(* ------------------------------------------------------------------ *)
(** ** Errors raised after the validation *)

(** A lookup error, or the [TypeError] of indexing [self.index] while it
    is still [None]. *)
Definition late_error (st : Engine) (e : PyErr) : Prop :=
  is_lookup_error e = true \/ (e = TypeError /\ e_index st = None).

Lemma mapM_late {A B} st (f : A -> Result B) l e :
  (forall x e', f x = Err e' -> late_error st e') ->
  mapM f l = Err e -> late_error st e.
Proof.
  intros Hf H. apply mapM_err in H as [x [_ Hx]]. eapply Hf; exact Hx.
Qed.

Lemma get_column_err t n e : get_column t n = Err e -> e = KeyError n.
Proof. unfold get_column. destruct (find_col n (tbl_cols t)); congruence. Qed.

Lemma loc_err s ids e : loc s ids = Err e -> is_lookup_error e = true.
Proof.
  unfold loc. destruct (loc_missing s ids); [discriminate|].
  destruct (Nat.eqb _ _); intros [= <-]; reflexivity.
Qed.

Lemma loc_ok s ids r :
  loc s ids = Ok r ->
  r = concat (map (loc_rows s) ids) /\
  forall id, In id ids -> existsb (fun kv => value_eqb (fst kv) id) s = true.
Proof.
  unfold loc. destruct (loc_missing s ids) as [|m ms] eqn:E;
    [|destruct (Nat.eqb _ _); discriminate].
  intros [= <-]. split; [reflexivity|]. intros id Hin.
  destruct (existsb (fun kv => value_eqb (fst kv) id) s) eqn:Ex; [reflexivity|].
  assert (Hm : In id (loc_missing s ids))
    by (unfold loc_missing; apply filter_In; split; [exact Hin|rewrite Ex; reflexivity]).
  rewrite E in Hm. destruct Hm.
Qed.

Lemma index_col_err st k e : index_col st k = Err e -> late_error st e.
Proof.
  unfold index_col, frame_col. destruct (e_index st) as [fr|] eqn:Ei.
  - destruct (find_col _ _); intros H; [discriminate|]. inversion H; left; reflexivity.
  - intros H; inversion H; right; split; [reflexivity|exact Ei].
Qed.

Lemma index_len_err st e : index_len st = Err e -> late_error st e.
Proof.
  unfold index_len. destruct (e_index st) eqn:Ei; intros H; inversion H.
  right; split; [reflexivity|exact Ei].
Qed.

Lemma fetch_direct_err st t k n e : fetch_direct st t k n = Err e -> late_error st e.
Proof.
  unfold fetch_direct, bind.
  destruct (get_column t n) eqn:E1; [|intros [= <-]; apply get_column_err in E1; subst; left; reflexivity].
  destruct (index_col st k) eqn:E2; [|intros [= <-]; eapply index_col_err; exact E2].
  destruct (loc _ _) eqn:E3; [discriminate|]. intros [= <-]. left. eapply loc_err; exact E3.
Qed.

Lemma fetch_first_whole_err st t cols e : fetch_first_whole t cols = Err e -> late_error st e.
Proof.
  unfold fetch_first_whole, bind, index0. destruct cols as [|c cs].
  - intros [= <-]; left; reflexivity.
  - destruct (get_column t c) eqn:E; [discriminate|]. intros [= <-].
    apply get_column_err in E; subst; left; reflexivity.
Qed.

Lemma static_series_err st k c e : static_series st k c = Err e -> late_error st e.
Proof.
  unfold static_series, bind.
  destruct (index_len st) eqn:E1; [|intros [= <-]; eapply index_len_err; exact E1].
  destruct (index_col st k) eqn:E2; [discriminate|]. intros [= <-]. eapply index_col_err; exact E2.
Qed.

Lemma collect_values_err st t k vals metas g e :
  collect_values st t k vals metas g = Err e -> late_error st e.
Proof.
  unfold collect_values. destruct g; apply mapM_late; intros.
  - eapply fetch_first_whole_err; eassumption.
  - eapply fetch_direct_err; eassumption.
Qed.

Lemma collect_meta_err st t k sc vals metas g e :
  collect_meta st t k sc vals metas g = Err e -> late_error st e.
Proof.
  unfold collect_meta. destruct sc; [|destruct g]; apply mapM_late; intros.
  - eapply static_series_err; eassumption.
  - eapply fetch_first_whole_err; eassumption.
  - eapply fetch_direct_err; eassumption.
Qed.

(** Once the checks at the top of [_make_resolution_series] pass, the only
    exceptions left are lookups. *)
Lemma make_resolution_series_late st va vb ma mb tv tm sm ta tb mode e :
  e_df_a st = Some ta -> e_df_b st = Some tb ->
  opt_callable tv = true -> opt_callable tm = true ->
  meta_mode ma mb sm = Ok mode ->
  make_resolution_series st va vb ma mb tv tm sm = Err e -> late_error st e.
Proof.
  intros Ha Hb Hv Hm Hmode H.
  unfold make_resolution_series, bind in H. rewrite Ha, Hb, Hv, Hm, Hmode in H.
  cbn beta iota in H.
  destruct (gen_all mode va vb) as [[gva gma] [gvb gmb]].
  destruct (collect_values st ta 0 va (meta_cols_a mode) gva) eqn:E1;
    [|inversion H; subst; eapply collect_values_err; exact E1].
  destruct (collect_values st tb 1 vb (meta_cols_b mode) gvb) eqn:E2;
    [|inversion H; subst; eapply collect_values_err; exact E2].
  destruct mode; [discriminate| |];
  (destruct (collect_meta _ ta 0 _ va _ gma) eqn:E3;
    [|inversion H; subst; eapply collect_meta_err; exact E3]);
  (destruct (collect_meta _ tb 1 _ vb _ gmb) eqn:E4;
    [discriminate|inversion H; subst; eapply collect_meta_err; exact E4]).
Qed.

(* ------------------------------------------------------------------ *)
(** ** When [self.index] has no column [0] or [1] *)

Lemma late_error_indexed st e fr :
  e_index st = Some fr -> late_error st e -> is_lookup_error e = true.
Proof. intros Hi [H|[_ H]]; [exact H|congruence]. Qed.













Lemma index_col_unnamed st p dfa dfb pred sa sb :
  pi_names p = (None, None) ->
  index_col (fusion_init st p dfa dfb pred sa sb) 0 = Ok (map fst (pi_pairs p)) /\
  index_col (fusion_init st p dfa dfb pred sa sb) 1 = Ok (map snd (pi_pairs p)).
Proof.
  intros Hn. rewrite (fusion_init_framed _ _ _ _ _ _ _ _ (to_frame_unnamed _ Hn)).
  unfold index_col, frame_of. rewrite Hn. split; reflexivity.
Qed.

(* ------------------------------------------------------------------ *)
(** ** Static metadata *)

Lemma static_series_ok st k c l : static_series st k c = Ok l -> exists n, l = repeat c n.
Proof.
  unfold static_series, bind. destruct (index_len st) as [n|]; [|discriminate].
  destruct (index_col st k); [|discriminate]. intros [= <-]. exists n; reflexivity.
Qed.

Lemma collect_meta_static st t k c vals metas g md :
  collect_meta st t k (Some c) vals metas g = Ok md ->
  length md = length vals /\ Forall (fun l => exists n, l = repeat c n) md.
Proof.
  unfold collect_meta. intros H. split.
  - rewrite (mapM_length _ _ _ H), length_seq; reflexivity.
  - apply mapM_Forall2 in H. induction H as [|x l y ys Hy _ IH]; constructor; [|exact IH].
    eapply static_series_ok; exact Hy.
Qed.

Lemma repeat_columns_row i (c : Value) :
  forall ls row, Forall2 (fun l x => nth_error l i = Some x) ls row ->
  Forall (fun l => exists n, l = repeat c n) ls -> row = repeat c (length ls).
Proof.
  induction 1 as [|l x ls row Hx _ IH]; intros Hf; [reflexivity|].
  inversion Hf as [|? ? [n Hn] Hf']; subst. simpl. f_equal; [|apply IH; exact Hf'].
  apply nth_error_In, repeat_spec in Hx. exact Hx.
Qed.

Lemma repeat_columns_map (f : Value -> Value) (c : Value) (ls : list (list Value)) :
  Forall (fun l => exists n, l = repeat c n) ls ->
  Forall (fun l => exists n, l = repeat (f c) n) (map (map f) ls).
Proof.
  induction 1 as [|l ls [n ->] _ IH]; constructor; [|exact IH].
  exists n. apply map_repeat.
Qed.

(* ------------------------------------------------------------------ *)
(** ** Direct fetches on keyed tables *)

Lemma nodupb_NoDup l : nodupb l = true -> NoDup l.
Proof.
  induction l as [|x l IH]; simpl; intros H; [constructor|].
  apply andb_true_iff in H as [H1 H2]. constructor; [|exact (IH H2)].
  intros Hin. apply negb_true_iff in H1.
  assert (existsb (value_eqb x) l = true) as E
    by (apply existsb_exists; exists x; split; [exact Hin|apply value_eqb_refl]).
  congruence.
Qed.

Lemma NoDup_map_fst_combine {A B} : forall (l : list A) (l' : list B),
  NoDup l -> NoDup (map fst (combine l l')).
Proof.
  induction l as [|x l IH]; intros [|y l'] H; simpl; try solve [constructor].
  inversion H as [|? ? Hx Hl]; subst. constructor; [|exact (IH l' Hl)].
  intros Hin. apply in_map_iff in Hin as [[x' y'] [Hx' Hin]]. simpl in Hx'; subst x'.
  apply in_combine_l in Hin. contradiction.
Qed.

Lemma filter_label_nodup (s : Series Value Value) id :
  NoDup (map fst s) ->
  filter (fun kv => value_eqb (fst kv) id) s = [] \/
  exists v, filter (fun kv => value_eqb (fst kv) id) s = [(id, v)] /\ lookup_label s id = Some v.
Proof.
  unfold lookup_label. induction s as [|[k v] s IH]; intros Hn; [left; reflexivity|].
  simpl in Hn. inversion Hn as [|? ? Hk Hn']; subst. simpl.
  destruct (value_eqb k id) eqn:E.
  - apply value_eqb_eq in E; subst k. right. exists v. split; [|reflexivity]. f_equal.
    destruct (IH Hn') as [Hf|[v' [Hf _]]]; [exact Hf|exfalso].
    assert (Hin : In (id, v') (filter (fun kv => value_eqb (fst kv) id) s))
      by (rewrite Hf; left; reflexivity).
    apply filter_In in Hin as [Hin _]. apply Hk. exact (in_map fst _ _ Hin).
  - exact (IH Hn').
Qed.

(** On a Series with unique labels, [.loc[ids]] is the value at each id,
    in the order of [ids]. *)
Lemma loc_nodup s ids r :
  NoDup (map fst s) -> loc s ids = Ok r ->
  Forall2 (fun id v => lookup_label s id = Some v) ids (values r).
Proof.
  intros Hn H. apply loc_ok in H as [-> Hall].
  induction ids as [|id ids' IH]; [constructor|].
  simpl. unfold values in *. rewrite map_app.
  assert (Hid := Hall id (or_introl eq_refl)).
  destruct (filter_label_nodup s id Hn) as [Hf|[v [Hf Hl]]].
  - exfalso. apply existsb_exists in Hid as [kv [Hin Hkv]].
    assert (Hin' : In kv (loc_rows s id)) by (apply filter_In; split; assumption).
    unfold loc_rows in Hin'. rewrite Hf in Hin'. destruct Hin'.
  - unfold loc_rows at 1. rewrite Hf. simpl. constructor; [exact Hl|].
    apply IH. intros id' Hin. apply Hall. right; exact Hin.
Qed.

Lemma fetch_direct_cells st t k name ids col :
  table_keyed t = true -> index_col st k = Ok ids -> fetch_direct st t k name = Ok col ->
  Forall2 (fun id v => cell t name id = Some v) ids col.
Proof.
  unfold fetch_direct, bind, cell. intros Hk Hi H.
  destruct (get_column t name) as [s|] eqn:Eg; [|discriminate]. rewrite Hi in H.
  destruct (loc s ids) as [r|] eqn:El; [|discriminate]. injection H as <-.
  apply loc_nodup; [|exact El].
  unfold get_column in Eg. destruct (find_col name (tbl_cols t)); [|discriminate].
  injection Eg as <-. apply NoDup_map_fst_combine, nodupb_NoDup, Hk.
Qed.

Lemma collect_values_direct st t k vals metas ids d :
  table_keyed t = true -> index_col st k = Ok ids ->
  collect_values st t k vals metas false = Ok d ->
  Forall2 (fun name col => Forall2 (fun id v => cell t name id = Some v) ids col) vals d.
Proof.
  unfold collect_values. intros Hk Hi H. apply mapM_Forall2 in H.
  induction H as [|x l y ys Hy _ IH]; constructor; [|exact IH].
  eapply fetch_direct_cells; eassumption.
Qed.

Lemma cells_length t ids :
  forall names cols,
  Forall2 (fun name col => Forall2 (fun id v => cell t name id = Some v) ids col) names cols ->
  Forall (fun c => length c = length ids) cols.
Proof.
  induction 1 as [|n c names cols Hc _ IH]; constructor; [|exact IH].
  symmetry; exact (Forall2_length Hc).
Qed.

Lemma collect_meta_lengths st t k s vals metas ids md :
  table_keyed t = true -> index_col st k = Ok ids -> index_len st = Ok (length ids) ->
  collect_meta st t k s vals metas false = Ok md ->
  length md = (match s with Some _ => length vals | None => length metas end) /\
  Forall (fun c => length c = length ids) md.
Proof.
  intros Hk Hi Hl H. unfold collect_meta in H. destruct s as [c|].
  - split; [rewrite (mapM_length _ _ _ H), length_seq; reflexivity|].
    apply mapM_Forall2 in H.
    induction H as [|x l y ys Hy _ IH]; constructor; [|exact IH].
    unfold static_series, bind in Hy. rewrite Hl, Hi in Hy. injection Hy as <-.
    apply repeat_length.
  - split; [exact (mapM_length _ _ _ H)|].
    apply mapM_Forall2 in H.
    induction H as [|x l y ys Hy _ IH]; constructor; [|exact IH].
    symmetry. exact (Forall2_length (fetch_direct_cells _ _ _ _ _ _ Hk Hi Hy)).
Qed.

Lemma Forall2_nth_error {A B} (R : A -> B -> Prop) :
  forall l1 l2 i a b, Forall2 R l1 l2 ->
  nth_error l1 i = Some a -> nth_error l2 i = Some b -> R a b.
Proof.
  intros l1 l2 i a b H. revert i.
  induction H as [|x y l1 l2 Hxy _ IH]; intros [|i] H1 H2; simpl in *; try discriminate.
  - injection H1 as <-; injection H2 as <-; exact Hxy.
  - exact (IH i H1 H2).
Qed.

(** Row [i] of the zipped direct columns holds, for every column name,
    the cell at the [i]-th id. *)
Lemma row_cells t (f : Value -> Value) ids i id :
  forall names cols row,
  Forall2 (fun name col => Forall2 (fun id v => cell t name id = Some v) ids col) names cols ->
  Forall2 (fun l x => nth_error l i = Some x) (map (map f) cols) row ->
  nth_error ids i = Some id ->
  map Some row = map (fun n => option_map f (cell t n id)) names.
Proof.
  intros names cols row H. revert row.
  induction H as [|n c names cols Hc _ IH]; intros row Hr Hid; simpl in Hr;
    inversion Hr as [|? x ? row' Hx Hr']; subst; [reflexivity|].
  simpl. f_equal; [|exact (IH row' Hr' Hid)].
  rewrite nth_error_map in Hx. destruct (nth_error c i) as [y|] eqn:Ey; [|discriminate].
  injection Hx as <-. rewrite (Forall2_nth_error _ _ _ _ _ _ Hc Hid Ey). reflexivity.
Qed.

Lemma columns_map_length (f : Value -> Value) n cols :
  Forall (fun c => length c = n) cols -> Forall (fun c => length c = n) (map (map f) cols).
Proof.
  induction 1 as [|c cols Hc _ IH]; constructor; [|exact IH]. rewrite length_map; exact Hc.
Qed.

Lemma gen_flags_equal vals metas :
  gen_flags vals metas = (false, false) -> length vals = length metas.
Proof.
  unfold gen_flags.
  destruct (length vals <? length metas) eqn:E1; [discriminate|].
  destruct (length metas <? length vals) eqn:E2; [discriminate|].
  apply Nat.ltb_ge in E1, E2. intros _. lia.
Qed.

Lemma series_of_list_length {A} (xs : list A) : length (series_of_list xs) = length xs.
Proof.
  rewrite <- (length_map fst), series_of_list_labels, length_map, length_seq. reflexivity.
Qed.

Lemma nth_error_rec1 vd i r :
  nth_error (map Rec1 vd) i = Some r -> nth_error vd i = Some (rec_values r).
Proof.
  rewrite nth_error_map. destruct (nth_error vd i); simpl; [|discriminate].
  intros [= <-]. reflexivity.
Qed.

Lemma nth_error_rec2 vd md i r :
  nth_error (map (fun vm => Rec2 (fst vm) (snd vm)) (combine vd md)) i = Some r ->
  nth_error vd i = Some (rec_values r).
Proof.
  rewrite nth_error_map. revert md i.
  induction vd as [|x vd IH]; intros [|m md] [|i]; simpl; try discriminate.
  - intros [= <-]. reflexivity.
  - apply IH.
Qed.

(** The zipped value columns, when the pair index columns are [self.index[0]]
    and [self.index[1]]: row [i] holds the cells of the [i]-th pair. *)
Lemma value_rows st pairs ta tb va vb metas_a metas_b da db tv :
  index_col st 0 = Ok (map fst pairs) -> index_col st 1 = Ok (map snd pairs) ->
  table_keyed ta = true -> table_keyed tb = true ->
  collect_values st ta 0 va metas_a false = Ok da ->
  collect_values st tb 1 vb metas_b false = Ok db ->
  (forall i row, nth_error (zipn (apply_transform tv (da ++ db))) i = Some row ->
     exists a b, nth_error pairs i = Some (a, b) /\
       map Some row =
         map (fun n => option_map (transform_value tv) (cell ta n a)) va ++
         map (fun n => option_map (transform_value tv) (cell tb n b)) vb) /\
  (va ++ vb <> [] -> length (zipn (apply_transform tv (da ++ db))) = length pairs).
Proof.
  intros I0 I1 Hka Hkb Ea Eb.
  pose proof (collect_values_direct _ _ _ _ _ _ _ Hka I0 Ea) as Ca.
  pose proof (collect_values_direct _ _ _ _ _ _ _ Hkb I1 Eb) as Cb.
  assert (Hlen : Forall (fun c => length c = length pairs) (apply_transform tv (da ++ db))).
  { rewrite apply_transform_map. apply columns_map_length. apply Forall_app.
    pose proof (cells_length _ _ _ _ Ca) as La. pose proof (cells_length _ _ _ _ Cb) as Lb.
    rewrite length_map in La, Lb. split; assumption. }
  assert (Hne : da ++ db <> [] ->
                length (zipn (apply_transform tv (da ++ db))) = length pairs).
  { intros Hd. apply zipn_length; [|exact Hlen].
    rewrite apply_transform_map. intros Hm. apply map_eq_nil in Hm. contradiction. }
  split.
  - intros i row Hrow.
    assert (Hd : da ++ db <> []).
    { intros Hd. rewrite Hd, apply_transform_map in Hrow. destruct i; discriminate. }
    assert (Hi : i < length pairs).
    { rewrite <- (Hne Hd). apply nth_error_Some. congruence. }
    destruct (nth_error pairs i) as [[a b]|] eqn:Ep; [|apply nth_error_None in Ep; lia].
    exists a, b. split; [reflexivity|].
    apply zipn_nth in Hrow. rewrite apply_transform_map, map_app in Hrow.
    apply Forall2_app_inv_l in Hrow as [r1 [r2 [Z1 [Z2 ->]]]]. rewrite map_app. f_equal.
    + apply (row_cells ta _ (map fst pairs) i a va da r1 Ca Z1).
      rewrite nth_error_map, Ep; reflexivity.
    + apply (row_cells tb _ (map snd pairs) i b vb db r2 Cb Z2).
      rewrite nth_error_map, Ep; reflexivity.
  - intros Hv. apply Hne. intros Hd. apply app_eq_nil in Hd as [-> ->].
    apply Forall2_length in Ca, Cb.
    destruct va; [|discriminate]. destruct vb; [|discriminate]. apply Hv; reflexivity.
Qed.

(** The zipped metadata columns, static or fetched directly, are as long
    as the pair index. *)
Lemma meta_rows_length st pairs ta tb sa sb va vb metas_a metas_b ma' mb' tm :
  index_col st 0 = Ok (map fst pairs) -> index_col st 1 = Ok (map snd pairs) ->
  index_len st = Ok (length pairs) ->
  table_keyed ta = true -> table_keyed tb = true ->
  collect_meta st ta 0 sa va metas_a false = Ok ma' ->
  collect_meta st tb 1 sb vb metas_b false = Ok mb' ->
  (sa = None -> length metas_a = length va) -> (sb = None -> length metas_b = length vb) ->
  va ++ vb <> [] -> length (zipn (apply_transform tm (ma' ++ mb'))) = length pairs.
Proof.
  intros I0 I1 IL Hka Hkb Ea Eb Ha Hb Hv.
  assert (IL0 : index_len st = Ok (length (map fst pairs))) by (rewrite length_map; exact IL).
  assert (IL1 : index_len st = Ok (length (map snd pairs))) by (rewrite length_map; exact IL).
  destruct (collect_meta_lengths _ _ _ _ _ _ _ _ Hka I0 IL0 Ea) as [La Fa].
  destruct (collect_meta_lengths _ _ _ _ _ _ _ _ Hkb I1 IL1 Eb) as [Lb Fb].
  rewrite length_map in Fa, Fb.
  apply zipn_length.
  - rewrite apply_transform_map. intros Hm. apply map_eq_nil, app_eq_nil in Hm as [-> ->].
    assert (Va : length va = 0).
    { destruct sa; simpl in La; [|rewrite Ha in La by reflexivity]; symmetry; exact La. }
    assert (Vb : length vb = 0).
    { destruct sb; simpl in Lb; [|rewrite Hb in Lb by reflexivity]; symmetry; exact Lb. }
    destruct va; [|discriminate]. destruct vb; [|discriminate]. apply Hv; reflexivity.
  - rewrite apply_transform_map. apply columns_map_length, Forall_app. split; assumption.
Qed.

(* ------------------------------------------------------------------ *)
(** ** An empty pair index *)

Lemma mapM_const {A B} (f : A -> Result B) c :
  (forall x, f x = Ok c) -> forall l, mapM f l = Ok (map (fun _ => c) l).
Proof. intros Hf. induction l as [|x l IH]; simpl; [reflexivity|]. rewrite Hf, IH. reflexivity. Qed.

Lemma fetch_direct_zero st t k name :
  index_col st k = Ok [] -> has_col t name = true -> fetch_direct st t k name = Ok [].
Proof.
  unfold fetch_direct, bind, get_column, has_col. intros Hi Hc.
  destruct (find_col name (tbl_cols t)); [|discriminate]. rewrite Hi. reflexivity.
Qed.

Lemma mapM_fetch_zero st t k :
  index_col st k = Ok [] ->
  forall vals, forallb (has_col t) vals = true ->
  mapM (fetch_direct st t k) vals = Ok (map (fun _ => []) vals).
Proof.
  intros Hi. induction vals as [|x vals IH]; simpl; [reflexivity|].
  intros H. apply andb_true_iff in H as [Hx Hv].
  rewrite (fetch_direct_zero _ _ _ _ Hi Hx), (IH Hv). reflexivity.
Qed.

Lemma fetch_first_whole_ok t cols :
  forallb (has_col t) cols = true -> cols <> [] -> exists c, fetch_first_whole t cols = Ok c.
Proof.
  destruct cols as [|x cols]; [congruence|]. simpl. intros H _.
  apply andb_true_iff in H as [Hx _]. unfold fetch_first_whole, bind, get_column, has_col in *.
  simpl. destruct (find_col x (tbl_cols t)); [|discriminate]. eexists; reflexivity.
Qed.

Lemma is_nil_false {A} (l : list A) : is_nil l = false -> l <> [].
Proof. destruct l; simpl; congruence. Qed.

Lemma In_nil_map {A} (l : list A) : l <> [] -> In [] (map (fun _ => @nil Value) l).
Proof. destruct l; [congruence|]. intros _. left; reflexivity. Qed.

(** One side of a job with metadata columns, on an empty pair index: its
    value columns and metadata columns are fetched without error, and
    either it declares no value column or one of its columns is empty. *)
Lemma side_zero st t k vals metas gv gm :
  index_col st k = Ok [] -> gen_flags vals metas = (gv, gm) ->
  forallb (has_col t) vals = true -> forallb (has_col t) metas = true ->
  Bool.eqb (is_nil vals) (is_nil metas) = true ->
  exists dv dm, collect_values st t k vals metas gv = Ok dv /\
                collect_meta st t k None vals metas gm = Ok dm /\
                (dv = [] \/ In [] dv \/ In [] dm).
Proof.
  intros Hi Hg Hv Hm Hn. unfold collect_values, collect_meta.
  unfold gen_flags in Hg.
  destruct (length vals <? length metas) eqn:E1; [|destruct (length metas <? length vals) eqn:E2];
    injection Hg as <- <-.
  - apply Nat.ltb_lt in E1.
    assert (Hms : metas <> []) by (destruct metas; simpl in E1; [lia|discriminate]).
    assert (Hvs : vals <> []).
    { apply is_nil_false. destruct (is_nil vals), (is_nil metas) eqn:Em; try discriminate;
        [destruct metas; [congruence|discriminate]|reflexivity]. }
    destruct (fetch_first_whole_ok _ _ Hv Hvs) as [c Hc].
    eexists; eexists; split; [apply (mapM_const _ c); intros; exact Hc|].
    split; [exact (mapM_fetch_zero _ _ _ Hi _ Hm)|]. do 2 right. apply In_nil_map, Hms.
  - apply Nat.ltb_lt in E2.
    assert (Hvs : vals <> []) by (destruct vals; simpl in E2; [lia|discriminate]).
    assert (Hms : metas <> []).
    { apply is_nil_false. destruct (is_nil metas), (is_nil vals) eqn:Ev; try discriminate;
        [destruct vals; [congruence|discriminate]|reflexivity]. }
    destruct (fetch_first_whole_ok _ _ Hm Hms) as [c Hc].
    eexists; eexists; split; [exact (mapM_fetch_zero _ _ _ Hi _ Hv)|].
    split; [apply (mapM_const _ c); intros; exact Hc|]. right; left. apply In_nil_map, Hvs.
  - eexists; eexists; split; [exact (mapM_fetch_zero _ _ _ Hi _ Hv)|].
    split; [exact (mapM_fetch_zero _ _ _ Hi _ Hm)|].
    destruct vals as [|x vals]; [left; reflexivity|right; left; left; reflexivity].
Qed.

Lemma zipn_map_nil_column (f : Value -> Value) (l : list (list Value)) :
  In [] l -> zipn (map (map f) l) = [].
Proof.
  intros H. apply zipn_nil_column. apply in_map_iff. exists []. split; [reflexivity|exact H].
Qed.

Lemma zero_rows_combine tv tm dva dvb dma dmb :
  (dva = [] \/ In [] dva \/ In [] dma) -> (dvb = [] \/ In [] dvb \/ In [] dmb) ->
  combine (zipn (apply_transform tv (dva ++ dvb))) (zipn (apply_transform tm (dma ++ dmb))) = [].
Proof.
  rewrite !apply_transform_map. intros Ha Hb.
  assert (Hv : In [] (dva ++ dvb) -> combine (zipn (map (map (transform_value tv)) (dva ++ dvb)))
                  (zipn (map (map (transform_value tm)) (dma ++ dmb))) = []).
  { intros H. rewrite (zipn_map_nil_column _ _ H). reflexivity. }
  assert (Hm : In [] (dma ++ dmb) -> combine (zipn (map (map (transform_value tv)) (dva ++ dvb)))
                  (zipn (map (map (transform_value tm)) (dma ++ dmb))) = []).
  { intros H. rewrite (zipn_map_nil_column _ _ H). destruct (zipn _); reflexivity. }
  destruct Ha as [->|[Ha|Ha]];
    [|apply Hv, in_or_app; left; exact Ha|apply Hm, in_or_app; left; exact Ha].
  destruct Hb as [->|[Hb|Hb]];
    [reflexivity|apply Hv, in_or_app; right; exact Hb|apply Hm, in_or_app; right; exact Hb].
Qed.

Lemma zipn_all_nil_app (f : Value -> Value) (l1 l2 : list Value) :
  zipn (map (map f) (map (fun _ => @nil Value) l1 ++ map (fun _ => @nil Value) l2)) = [].
Proof. rewrite <- map_app, map_map. apply zipn_all_nil. Qed.

(** On an empty pair index with unnamed levels, a valid job yields an
    empty Series. *)
Lemma job_series_zero st ta tb j :
  e_df_a st = Some ta -> e_df_b st = Some tb ->
  index_col st 0 = Ok [] -> index_col st 1 = Ok [] -> index_len st = Ok 0 ->
  job_valid ta tb j = true -> job_series st j = Ok [].
Proof.
  intros Ea Eb I0 I1 IL Hj.
  destruct j as [f va vb ma mb tv tm sm params].
  unfold job_valid, side_valid, passes_checks in Hj. cbn [job_values_a job_values_b
    job_meta_a job_meta_b job_transform_vals job_transform_meta job_static_meta] in Hj.
  destruct (opt_callable tv) eqn:Hv; [|discriminate].
  destruct (opt_callable tm) eqn:Hm; [|discriminate].
  unfold job_series, make_resolution_series, bind. cbn [job_values_a job_values_b
    job_meta_a job_meta_b job_transform_vals job_transform_meta job_static_meta].
  rewrite Ea, Eb, Hv, Hm. cbn [negb].
  unfold meta_mode.
  destruct ma as [ma|], mb as [mb|]; simpl in Hj; try discriminate Hj;
    [destruct sm; simpl in Hj|];
    repeat match goal with H : _ && _ = true |- _ => apply andb_true_iff in H as [? ?] end.
  - cbn beta iota zeta delta [gen_all meta_cols_a meta_cols_b collect_values collect_meta].
    rewrite (mapM_fetch_zero st ta 0 I0 va ltac:(assumption)),
            (mapM_fetch_zero st tb 1 I1 vb ltac:(assumption)).
    assert (Hs : forall k c, index_col st k = Ok [] -> static_series st k c = Ok []).
    { intros k c Hk. unfold static_series, bind. rewrite IL, Hk. reflexivity. }
    rewrite (mapM_const _ [] (fun _ => Hs 0%Z ma I0)).
    rewrite (mapM_const _ [] (fun _ => Hs 1%Z mb I1)).
    cbn beta iota zeta. rewrite !apply_transform_map, !zipn_all_nil_app. reflexivity.
  - cbn beta iota zeta delta [gen_all meta_cols_a meta_cols_b].
    destruct (gen_flags va (listify ma)) as [gva gma] eqn:Ga.
    destruct (gen_flags vb (listify mb)) as [gvb gmb] eqn:Gb.
    destruct (side_zero st ta 0 _ _ _ _ I0 Ga ltac:(assumption) ltac:(assumption)
                ltac:(assumption)) as [dva [dma [Eva [Ema Pa]]]].
    destruct (side_zero st tb 1 _ _ _ _ I1 Gb ltac:(assumption) ltac:(assumption)
                ltac:(assumption)) as [dvb [dmb [Evb [Emb Pb]]]].
    rewrite Eva, Evb. cbn beta iota zeta. rewrite Ema, Emb. cbn beta iota zeta.
    rewrite (zero_rows_combine _ _ _ _ _ _ Pa Pb). reflexivity.
  - cbn beta iota zeta delta [gen_all meta_cols_a meta_cols_b collect_values].
    rewrite (mapM_fetch_zero st ta 0 I0 va ltac:(assumption)),
            (mapM_fetch_zero st tb 1 I1 vb ltac:(assumption)).
    cbn beta iota zeta. rewrite !apply_transform_map, !zipn_all_nil_app. reflexivity.
Qed.

Lemma run_jobs_zero st q rng :
  Forall (fun j => job_series st j = Ok []) q ->
  run_jobs st q rng = (Ok (map (fun _ => []) q), rng).
Proof.
  induction 1 as [|j q Hj _ IH]; simpl; [reflexivity|]. rewrite Hj. simpl.
  rewrite IH. reflexivity.
Qed.

Lemma index_union_nil (l : list Job) :
  index_union [] (map (map fst) (map (fun _ => @nil (RowLabel * Value)) l)) = [].
Proof.
  unfold index_union. induction l as [|x l IH]; [reflexivity|]. simpl. exact IH.
Qed.

Lemma combine_nil_columns {A B C D} (g : A -> B) :
  forall (l : list A) (m : list C), length l = length m ->
  combine (map g l) (map (fun _ => @nil D) m) = map (fun x => (g x, [])) l.
Proof.
  induction l as [|x l IH]; intros [|y m] H; simpl in *; try discriminate; [reflexivity|].
  f_equal. apply IH. congruence.
Qed.

Lemma concat_axis1_zero (q : list Job) :
  q <> [] ->
  concat_axis1 (map (fun _ => []) q)
  = Ok (mkFused [] (map (fun j => (VInt (Z.of_nat j), [])) (seq 0 (length q)))).
Proof.
  destruct q as [|j q]; [congruence|]. intros _. unfold concat_axis1.
  cbn [map fst]. cbv zeta. rewrite index_union_nil. cbn [map].
  f_equal. f_equal. rewrite map_map.
  change ([] :: map (fun _ : Job => @nil Value) q) with (map (fun _ : Job => @nil Value) (j :: q)).
  rewrite (combine_nil_columns _ (seq 0 _) (j :: q))
    by (rewrite length_seq; cbn [length]; rewrite length_map; reflexivity).
  cbn [length]. rewrite length_map. reflexivity.
Qed.


(* ------------------------------------------------------------------ *)
(** ** The claims *)

(** C1 (code bug): with one value column [v] and three metadata columns on
    side A, the broadcast values are the whole column [v] of table A in
    table order ([p], from record [a1]), not the value at the pair's
    matched record [a2] ([q]), while the metadata is read at [a2]. *)
Theorem broadcast_values_ignore_pair_index :
  let st := fusion_init broadcast_job pairs_1 (Some table_a) (Some table_b) None "_a"%string "_b"%string in
  make_resolution_series st [VStr "v"] [VStr "w"]
    (Some (VList [VStr "m1"; VStr "m2"; VStr "m3"])) (Some (VStr "n")) None None false
  = Ok [(RPos 0, Rec2 [VStr "p"; VStr "p"; VStr "p"; VStr "r"] [VInt 2; VInt 4; VInt 6; VInt 7])]
  /\ fetch_direct st table_a 0 (VStr "v") = Ok [VStr "q"].
Proof. split; vm_compute; reflexivity. Qed.

(** C2 (counterexample): for one pair [(a2, b1)] and one job, the fused
    table is row-indexed by position [0], not by the pair [(a2, b1)]. *)
Lemma fused_index_is_not_pair_index :
  snd (fuse plain_job pairs_1 (Some table_a) (Some table_b) None "_a"%string "_b"%string 0)
  = Ok (mkFused [RPos 0] [(VInt 0, [VStr "q"])])
  /\ [RPos 0] <> pair_labels pairs_1.
Proof. split; [vm_compute; reflexivity|discriminate]. Qed.

(** C2 (amended): when [fuse] returns a table, every per-job output column
    carries a fresh positional index [0..n-1]; the table has one column per
    queued job, labelled [0..k-1] in queue order, and is row-indexed by the
    positions [0..m-1], [m] the length of the longest column. *)
Theorem fuse_output_positional_index st p dfa dfb pred sa sb rng st' rng' t :
  fuse st p dfa dfb pred sa sb rng = (st', rng', Ok t) ->
  exists cols,
    fst (run_jobs st' (e_queue st) rng) = Ok cols /\
    length cols = length (e_queue st) /\
    Forall (fun c => map fst c = map RPos (seq 0 (length c))) cols /\
    map fst (fu_cols t) = map (fun j => VInt (Z.of_nat j)) (seq 0 (length (e_queue st))) /\
    fu_index t = map RPos (seq 0 (fold_left Nat.max (map (@length _) cols) 0)).
Proof.
  intros H. destruct (to_frame p) as [fr|e0] eqn:Hf;
    [|rewrite (fuse_unframed _ _ _ _ _ _ _ _ _ Hf) in H; discriminate].
  rewrite (fuse_framed _ _ _ _ _ _ _ _ _ Hf) in H. cbv zeta in H.
  destruct (run_jobs (fusion_init st p dfa dfb pred sa sb) (e_queue st) rng)
    as [[cols|e] r1] eqn:Er; inversion H; subst.
  pose proof (run_jobs_ok _ _ _ _ _ Er) as HF.
  assert (Hpos : Forall (fun c => map fst c = map RPos (seq 0 (length c))) cols).
  { clear -HF. induction HF as [|j c q cs [data [r0 [Hj Hc]]] _ IH]; constructor; [|exact IH].
    subst c. rewrite resolve_labels, (job_series_positional _ _ _ Hj).
    rewrite <- (length_map fst (fst (resolve _ _ _ _))), resolve_labels, length_map.
    reflexivity. }
  exists cols. rewrite Er. split; [reflexivity|].
  split; [symmetry; exact (Forall2_length HF)|]. split; [exact Hpos|].
  rewrite (Forall2_length HF). apply concat_axis1_pos; assumption.
Qed.

(** C3 (counterexample): with static metadata ["a"] / ["b"] and a
    [transform_meta] mapping everything to ["X"], the metadata tuple holds
    ["X"], not the constants supplied. *)
Lemma static_metadata_goes_through_transform :
  make_resolution_series
    (fusion_init new_engine pairs_1 (Some table_a) (Some table_b) None "_a"%string "_b"%string)
    [VStr "v"] [VStr "w"] (Some (VStr "a")) (Some (VStr "b"))
    None (Some (PyCallable (fun _ => VStr "X"))) true
  = Ok [(RPos 0, Rec2 [VStr "q"; VStr "r"] [VStr "X"; VStr "X"])].
Proof. vm_compute; reflexivity. Qed.

(** C6: every column of [fuse] is obtained by calling the job's strategy
    on each aligned record with the job's [params] as the extra positional
    arguments; [queue_resolve] with its defaults stores [params=None],
    which [Series.apply] passes as no extra argument. *)
Theorem strategy_receives_params st q rng cols rng' :
  run_jobs st q rng = (Ok cols, rng') ->
  Forall2 (fun j c => exists data,
             job_series st j = Ok data /\ map fst c = map fst data /\
             Forall2 (fun x v => exists r,
                        v = fst (job_fun j x (params_args (job_params j)) r))
                     (values data) (values c)) q cols /\
  (forall st0 f va vb, exists j,
     e_queue (queue_resolve_defaults st0 f va vb) = e_queue st0 ++ [j] /\
     job_fun j = f /\ job_params j = None /\ params_args (job_params j) = []).
Proof.
  intros H. split.
  - pose proof (run_jobs_ok _ _ _ _ _ H) as HF. clear H.
    induction HF as [|j c q' cs [data [r0 [Hj Hc]]] _ IH]; [constructor|].
    constructor; [|exact IH].
    exists data. subst c. split; [exact Hj|]. split; [apply resolve_labels|].
    apply (apply_series_values (fun x r => job_fun j x (params_args (job_params j)) r)).
  - intros st0 f va vb. eexists. split; [reflexivity|]. simpl. auto.
Qed.

(** C7: the result of [fuse] depends only on the queue, the inputs and
    the random state: two engines with the same queue give the same
    result and the same random state (and, once [_fusion_init] has
    returned, the same engine), and a second call on the engine left by
    the first gives the same table again. *)
Theorem fuse_deterministic st1 st2 p dfa dfb pred sa sb rng :
  e_queue st1 = e_queue st2 ->
  snd (fst (fuse st1 p dfa dfb pred sa sb rng)) = snd (fst (fuse st2 p dfa dfb pred sa sb rng)) /\
  snd (fuse st1 p dfa dfb pred sa sb rng) = snd (fuse st2 p dfa dfb pred sa sb rng) /\
  (forall fr, to_frame p = Ok fr ->
     fuse st1 p dfa dfb pred sa sb rng = fuse st2 p dfa dfb pred sa sb rng) /\
  snd (fuse (fst (fst (fuse st1 p dfa dfb pred sa sb rng))) p dfa dfb pred sa sb rng)
  = snd (fuse st1 p dfa dfb pred sa sb rng).
Proof.
  intros Hq. destruct (fuse_same_queue st1 st2 p dfa dfb pred sa sb rng Hq) as [H1 [H2 H3]].
  split; [exact H1|split; [exact H2|split; [exact H3|]]].
  apply (fuse_same_queue _ st1 p dfa dfb pred sa sb rng).
  destruct (to_frame p) as [fr|e] eqn:Hf.
  - rewrite (fuse_framed st1 _ _ _ _ _ _ _ _ Hf). cbv zeta.
    destruct (run_jobs _ _ rng) as [r rng1]. apply fusion_init_queue.
  - rewrite (fuse_unframed st1 _ _ _ _ _ _ _ _ Hf). apply fusion_init_queue.
Qed.

(** C10 (corrected): when the two level labels of the pair index differ
    (unnamed levels in particular), [fuse] on an empty queue raises the
    [ValueError] of [pd.concat([])]; when they coincide, the [ValueError]
    of [MultiIndex.to_frame] in [_fusion_init] is raised first. *)
Theorem fuse_empty_queue_raises st p dfa dfb pred sa sb rng :
  e_queue st = [] ->
  snd (fuse st p dfa dfb pred sa sb rng)
  = match to_frame p with
    | Err e => Err e
    | Ok _ => Err (ValueError "No objects to concatenate")
    end.
Proof.
  intros H. destruct (to_frame p) as [fr|e] eqn:Hf.
  - rewrite (fuse_framed _ _ _ _ _ _ _ _ _ Hf), H. reflexivity.
  - rewrite (fuse_unframed _ _ _ _ _ _ _ _ _ Hf). reflexivity.
Qed.

(** C5: building the resolution series raises a configuration error
    ([AssertionError] or [ValueError]) exactly when a table is missing, a
    transform is given but not callable, or metadata is given for one side
    only; otherwise the only exceptions left are lookups. *)
Theorem alignment_fails_fast_on_configuration st va vb ma mb tv tm sm :
  (exists e, make_resolution_series st va vb ma mb tv tm sm = Err e /\ is_config_error e = true)
  <-> (e_df_a st = None \/ e_df_b st = None \/
       opt_callable tv = false \/ opt_callable tm = false \/
       (ma = None /\ mb <> None) \/ (mb = None /\ ma <> None)).
Proof.
  split.
  - intros [e [H Hc]].
    destruct (e_df_a st) as [ta|] eqn:Ea; [|left; reflexivity].
    destruct (e_df_b st) as [tb|] eqn:Eb; [|right; left; reflexivity].
    destruct (opt_callable tv) eqn:Ev; [|do 2 right; left; reflexivity].
    destruct (opt_callable tm) eqn:Em; [|do 3 right; left; reflexivity].
    destruct (meta_mode ma mb sm) as [mode|e'] eqn:Emode.
    + exfalso.
      destruct (make_resolution_series_late _ _ _ _ _ _ _ _ _ _ _ _ Ea Eb Ev Em Emode H)
        as [Hl|[-> _]]; [destruct e; discriminate|discriminate].
    + do 4 right. unfold meta_mode in Emode.
      destruct ma, mb; [destruct sm; discriminate|right|left|discriminate];
        split; congruence.
  - intros Hc. unfold make_resolution_series.
    destruct (e_df_a st) as [ta|] eqn:Ea; [|eexists; split; reflexivity].
    destruct (e_df_b st) as [tb|] eqn:Eb; [|eexists; split; reflexivity].
    destruct (opt_callable tv) eqn:Ev; [|eexists; split; reflexivity].
    destruct (opt_callable tm) eqn:Em; [|eexists; split; reflexivity].
    destruct Hc as [Hc|[Hc|[Hc|[Hc|[[H1 H2]|[H1 H2]]]]]]; try discriminate.
    + subst ma. destruct mb; [|congruence]. eexists; split; reflexivity.
    + subst mb. destruct ma; [|congruence]. eexists; split; reflexivity.
Qed.



(** C3 (amended): with [static_meta=True] and a constant for each side,
    every pair's metadata tuple is the side-A constant repeated
    [len(values_a)] times followed by the side-B constant repeated
    [len(values_b)] times, each passed through [transform_meta] when one is
    given ([transform_value None] is the identity), whatever the tables. *)
Theorem static_metadata_tuples st va vb ca cb tv tm data :
  make_resolution_series st va vb (Some ca) (Some cb) tv tm true = Ok data ->
  Forall (fun r => exists vs,
            r = Rec2 vs (repeat (transform_value tm ca) (length va) ++
                         repeat (transform_value tm cb) (length vb)))
         (values data).
Proof.
  intros H. unfold make_resolution_series, bind in H.
  destruct (e_df_a st) as [ta|]; [|discriminate].
  destruct (e_df_b st) as [tb|]; [|discriminate].
  destruct (negb (opt_callable tv)); [discriminate|].
  destruct (negb (opt_callable tm)); [discriminate|].
  cbn beta iota zeta delta [meta_mode gen_all meta_cols_a meta_cols_b] in H.
  destruct (collect_values st ta 0 va [] false) as [da|]; [|discriminate].
  cbn beta iota zeta in H.
  destruct (collect_values st tb 1 vb [] false) as [db|]; [|discriminate].
  cbn beta iota zeta in H.
  destruct (collect_meta st ta 0 (Some ca) va [] false) as [ma|] eqn:E3; [|discriminate].
  cbn beta iota zeta in H.
  destruct (collect_meta st tb 1 (Some cb) vb [] false) as [mb|] eqn:E4; [|discriminate].
  injection H as <-. rewrite series_of_list_values.
  apply Forall_map, Forall_forall. intros [v m] Hin. exists v. cbn [fst snd]. f_equal.
  apply in_combine_r, In_nth_error in Hin as [i Hi].
  apply zipn_nth in Hi. rewrite apply_transform_map, map_app in Hi.
  apply Forall2_app_inv_l in Hi as [m1 [m2 [H1 [H2 ->]]]].
  destruct (collect_meta_static _ _ _ _ _ _ _ _ E3) as [La Fa].
  destruct (collect_meta_static _ _ _ _ _ _ _ _ E4) as [Lb Fb].
  rewrite (repeat_columns_row _ _ _ _ H1 (repeat_columns_map _ _ _ Fa)).
  rewrite (repeat_columns_row _ _ _ _ H2 (repeat_columns_map _ _ _ Fb)).
  rewrite !length_map, La, Lb. reflexivity.
Qed.

(** C4: for a call with no generalization, on tables keyed by record id
    and a pair index with unnamed levels, the output is positional, has
    one row per pair (when a value column is declared), and its [i]-th
    record is built from the [i]-th pair [(a, b)]: its values tuple lists
    the cells of the [values_a] columns at [a], then those of the
    [values_b] columns at [b], in declared order ([transform_vals]
    applied). *)
Theorem direct_fetch_follows_pair_index st0 p ta tb pred suf_a suf_b va vb ma mb tv tm sm data :
  pi_names p = (None, None) -> table_keyed ta = true -> table_keyed tb = true ->
  no_generalization va vb ma mb sm = true ->
  make_resolution_series (fusion_init st0 p (Some ta) (Some tb) pred suf_a suf_b)
    va vb ma mb tv tm sm = Ok data ->
  map fst data = map RPos (seq 0 (length data)) /\
  (va ++ vb <> [] -> length data = length (pi_pairs p)) /\
  (forall i r, nth_error (values data) i = Some r ->
     exists a b, nth_error (pi_pairs p) i = Some (a, b) /\
       map Some (rec_values r) =
         map (fun n => option_map (transform_value tv) (cell ta n a)) va ++
         map (fun n => option_map (transform_value tv) (cell tb n b)) vb).
Proof.
  intros Hn Hka Hkb Hg H.
  destruct (make_resolution_series_shape _ _ _ _ _ _ _ _ _ H) as [xs Hxs].
  split; [rewrite Hxs, series_of_list_labels, series_of_list_length; reflexivity|].
  clear Hxs.
  destruct (index_col_unnamed st0 p (Some ta) (Some tb) pred suf_a suf_b Hn) as [I0 I1].
  rewrite (fusion_init_framed _ _ _ _ _ _ _ _ (to_frame_unnamed _ Hn)) in H, I0, I1.
  set (st := mkEngine (Some p) (Some (frame_of p)) pred (Some ta) (Some tb)
                      (Some suf_a) (Some suf_b) (e_queue st0)) in H, I0, I1.
  assert (IL : index_len st = Ok (length (pi_pairs p))) by reflexivity.
  unfold make_resolution_series, bind in H.
  change (e_df_a st) with (Some ta) in H. change (e_df_b st) with (Some tb) in H.
  cbv beta iota in H.
  destruct (negb (opt_callable tv)); [discriminate|].
  destruct (negb (opt_callable tm)); [discriminate|].
  unfold no_generalization in Hg.
  destruct (meta_mode ma mb sm) as [mode|e] eqn:Em; [|discriminate]. cbn beta iota in H.
  destruct (gen_all mode va vb) as [[gva gma] [gvb gmb]] eqn:Eg.
  destruct gva, gma, gvb, gmb; try discriminate Hg. cbn beta iota zeta in H.
  destruct (collect_values st ta 0 va (meta_cols_a mode) false) as [da|] eqn:Ea;
    [|discriminate]. cbn beta iota zeta in H.
  destruct (collect_values st tb 1 vb (meta_cols_b mode) false) as [db|] eqn:Eb;
    [|discriminate]. cbn beta iota zeta delta [meta_cols_a meta_cols_b] in H.
  destruct (value_rows _ _ _ _ _ _ _ _ _ _ tv I0 I1 Hka Hkb Ea Eb) as [Hrow Hlen].
  destruct mode as [|ca cb|lma lmb].
  - injection H as <-. rewrite series_of_list_length, length_map, series_of_list_values.
    split; [exact Hlen|]. intros i r Hr. apply Hrow, nth_error_rec1, Hr.
  - cbn beta iota zeta delta [meta_cols_a meta_cols_b] in H.
    destruct (collect_meta st ta 0 (Some ca) va [] false) as [ma'|] eqn:Ema;
      [|discriminate]. cbn beta iota zeta in H.
    destruct (collect_meta st tb 1 (Some cb) vb [] false) as [mb'|] eqn:Emb;
      [|discriminate]. injection H as <-.
    rewrite series_of_list_length, length_map, series_of_list_values, length_combine.
    split.
    + intros Hv. rewrite (Hlen Hv).
      rewrite (meta_rows_length _ _ _ _ _ _ _ _ _ _ _ _ tm I0 I1 IL Hka Hkb Ema Emb);
        [apply Nat.min_id|discriminate|discriminate|exact Hv].
    + intros i r Hr. apply Hrow. eapply nth_error_rec2; exact Hr.
  - simpl in Eg. injection Eg as Ega Egb.
    apply gen_flags_equal in Ega, Egb. cbn beta iota zeta delta [meta_cols_a meta_cols_b] in H.
    destruct (collect_meta st ta 0 None va lma false) as [ma'|] eqn:Ema;
      [|discriminate]. cbn beta iota zeta in H.
    destruct (collect_meta st tb 1 None vb lmb false) as [mb'|] eqn:Emb;
      [|discriminate]. injection H as <-.
    rewrite series_of_list_length, length_map, series_of_list_values, length_combine.
    split.
    + intros Hv. rewrite (Hlen Hv).
      rewrite (meta_rows_length _ _ _ _ _ _ _ _ _ _ _ _ tm I0 I1 IL Hka Hkb Ema Emb);
        [apply Nat.min_id|intros _; symmetry; exact Ega|intros _; symmetry; exact Egb|exact Hv].
    + intros i r Hr. apply Hrow. eapply nth_error_rec2; exact Hr.
Qed.

(** C8: on a pair index with unnamed levels and no pair, a non-empty queue
    of valid jobs runs without error: every job's aligned Series is empty,
    and [fuse] returns a table with no row and one column per job,
    labelled [0..k-1]. *)
Theorem zero_pairs_zero_rows st p ta tb pred suf_a suf_b rng :
  pi_names p = (None, None) -> pi_pairs p = [] -> is_nil (e_queue st) = false ->
  forallb (job_valid ta tb) (e_queue st) = true ->
  Forall (fun j => job_series (fusion_init st p (Some ta) (Some tb) pred suf_a suf_b) j = Ok [])
         (e_queue st) /\
  snd (fuse st p (Some ta) (Some tb) pred suf_a suf_b rng)
  = Ok (mkFused [] (map (fun j => (VInt (Z.of_nat j), [])) (seq 0 (length (e_queue st))))).
Proof.
  intros Hn Hp Hq Hv. pose proof (to_frame_unnamed _ Hn) as Htf.
  destruct (index_col_unnamed st p (Some ta) (Some tb) pred suf_a suf_b Hn) as [I0 I1].
  rewrite (fusion_init_framed _ _ _ _ _ _ _ _ Htf) in I0, I1 |- *.
  set (st1 := mkEngine (Some p) (Some (frame_of p)) pred (Some ta) (Some tb)
                       (Some suf_a) (Some suf_b) (e_queue st)) in *.
  rewrite Hp in I0, I1. cbn [map] in I0, I1.
  assert (IL : index_len st1 = Ok 0).
  { change (index_len st1) with (Ok (length (pi_pairs p))). rewrite Hp. reflexivity. }
  assert (HF : Forall (fun j => job_series st1 j = Ok []) (e_queue st)).
  { apply Forall_forall. intros j Hj.
    apply (job_series_zero st1 ta tb j eq_refl eq_refl I0 I1 IL).
    rewrite forallb_forall in Hv. exact (Hv j Hj). }
  split; [exact HF|].
  rewrite (fuse_framed _ _ _ _ _ _ _ _ _ Htf). cbv zeta.
  rewrite (fusion_init_framed _ _ _ _ _ _ _ _ Htf). fold st1.
  rewrite (run_jobs_zero _ _ rng HF). cbn [snd].
  apply concat_axis1_zero, is_nil_false, Hq.
Qed.

(* ------------------------------------------------------------------ *)
(** ** Instances of the theorems on the sample data *)

(** Two jobs on one pair: two positional columns [0] and [1], one row. *)
Lemma fuse_output_positional_index_witness :
  fuse param_job pairs_1 (Some table_a) (Some table_b) None "_a"%string "_b"%string 0
  = (fusion_init param_job pairs_1 (Some table_a) (Some table_b) None "_a"%string "_b"%string, 0,
     Ok (mkFused [RPos 0] [(VInt 0, [VStr "q"]); (VInt 1, [VStr "t"])])) /\
  exists cols,
    fst (run_jobs (fusion_init param_job pairs_1 (Some table_a) (Some table_b) None
                     "_a"%string "_b"%string) (e_queue param_job) 0) = Ok cols /\
    length cols = length (e_queue param_job) /\
    Forall (fun c => map fst c = map RPos (seq 0 (length c))) cols /\
    map fst (fu_cols (mkFused [RPos 0] [(VInt 0, [VStr "q"]); (VInt 1, [VStr "t"])]))
    = map (fun j => VInt (Z.of_nat j)) (seq 0 (length (e_queue param_job))) /\
    fu_index (mkFused [RPos 0] [(VInt 0, [VStr "q"]); (VInt 1, [VStr "t"])])
    = map RPos (seq 0 (fold_left Nat.max (map (@length _) cols) 0)).
Proof.
  split; [vm_compute; reflexivity|].
  apply (fuse_output_positional_index param_job pairs_1 (Some table_a) (Some table_b) None
           "_a"%string "_b"%string 0
           (fusion_init param_job pairs_1 (Some table_a) (Some table_b) None "_a"%string "_b"%string)
           0 (mkFused [RPos 0] [(VInt 0, [VStr "q"]); (VInt 1, [VStr "t"])])).
  vm_compute; reflexivity.
Defined.

(** Two columns on side A, static constants ["a"] and ["b"], two pairs. *)
Lemma static_metadata_tuples_witness :
  make_resolution_series
    (fusion_init new_engine pairs_2 (Some table_a) (Some table_b) None "_a"%string "_b"%string)
    [VStr "v"; VStr "m1"] [VStr "w"] (Some (VStr "a")) (Some (VStr "b")) None None true
  = Ok [(RPos 0, Rec2 [VStr "q"; VInt 2; VStr "r"] [VStr "a"; VStr "a"; VStr "b"]);
        (RPos 1, Rec2 [VStr "p"; VInt 1; VStr "r"] [VStr "a"; VStr "a"; VStr "b"])] /\
  Forall (fun r => exists vs,
            r = Rec2 vs (repeat (transform_value None (VStr "a")) 2 ++
                         repeat (transform_value None (VStr "b")) 1))
    (values [(RPos 0, Rec2 [VStr "q"; VInt 2; VStr "r"] [VStr "a"; VStr "a"; VStr "b"]);
             (RPos 1, Rec2 [VStr "p"; VInt 1; VStr "r"] [VStr "a"; VStr "a"; VStr "b"])]).
Proof.
  split; [vm_compute; reflexivity|].
  apply (static_metadata_tuples
           (fusion_init new_engine pairs_2 (Some table_a) (Some table_b) None "_a"%string "_b"%string)
           [VStr "v"; VStr "m1"] [VStr "w"] (VStr "a") (VStr "b") None None).
  vm_compute; reflexivity.
Defined.

(** Two pairs [(a2, b1)], [(a1, b1)]: row [0] reads [a2], row [1] reads [a1]. *)
Lemma direct_fetch_follows_pair_index_witness :
  make_resolution_series
    (fusion_init new_engine pairs_2 (Some table_a) (Some table_b) None "_a"%string "_b"%string)
    [VStr "v"; VStr "m1"] [VStr "w"] None None None None false
  = Ok [(RPos 0, Rec1 [VStr "q"; VInt 2; VStr "r"]);
        (RPos 1, Rec1 [VStr "p"; VInt 1; VStr "r"])] /\
  let data := [(RPos 0, Rec1 [VStr "q"; VInt 2; VStr "r"]);
               (RPos 1, Rec1 [VStr "p"; VInt 1; VStr "r"])] in
  map fst data = map RPos (seq 0 (length data)) /\
  ([VStr "v"; VStr "m1"] ++ [VStr "w"] <> [] -> length data = length (pi_pairs pairs_2)) /\
  (forall i r, nth_error (values data) i = Some r ->
     exists a b, nth_error (pi_pairs pairs_2) i = Some (a, b) /\
       map Some (rec_values r) =
         map (fun n => option_map (transform_value None) (cell table_a n a)) [VStr "v"; VStr "m1"] ++
         map (fun n => option_map (transform_value None) (cell table_b n b)) [VStr "w"]).
Proof.
  split; [vm_compute; reflexivity|].
  apply (direct_fetch_follows_pair_index new_engine pairs_2 table_a table_b None
           "_a"%string "_b"%string [VStr "v"; VStr "m1"] [VStr "w"] None None None None false);
    vm_compute; reflexivity.
Defined.

(** [first_value] without parameters, then [first_param] with [("t",)]. *)
Lemma strategy_receives_params_witness :
  run_jobs (fusion_init param_job pairs_1 (Some table_a) (Some table_b) None "_a"%string "_b"%string)
    (e_queue param_job) 0
  = (Ok [[(RPos 0, VStr "q")]; [(RPos 0, VStr "t")]], 0) /\
  Forall2 (fun j c => exists data,
             job_series (fusion_init param_job pairs_1 (Some table_a) (Some table_b) None
                           "_a"%string "_b"%string) j = Ok data /\
             map fst c = map fst data /\
             Forall2 (fun x v => exists r,
                        v = fst (job_fun j x (params_args (job_params j)) r))
                     (values data) (values c))
    (e_queue param_job) [[(RPos 0, VStr "q")]; [(RPos 0, VStr "t")]] /\
  (forall st0 f va vb, exists j,
     e_queue (queue_resolve_defaults st0 f va vb) = e_queue st0 ++ [j] /\
     job_fun j = f /\ job_params j = None /\ params_args (job_params j) = []).
Proof.
  split; [vm_compute; reflexivity|].
  apply (strategy_receives_params
           (fusion_init param_job pairs_1 (Some table_a) (Some table_b) None "_a"%string "_b"%string)
           (e_queue param_job) 0 [[(RPos 0, VStr "q")]; [(RPos 0, VStr "t")]] 0).
  vm_compute; reflexivity.
Defined.

(** A randomized job, run from a fresh engine and from an engine already
    used on other inputs, with the same random state. *)
Lemma fuse_deterministic_witness :
  e_queue random_job
  = e_queue (fusion_init random_job pairs_1 (Some table_a) (Some table_b) None "_a"%string "_b"%string) /\
  snd (fst (fuse random_job pairs_2 (Some table_a) (Some table_b) None "_a"%string "_b"%string 3))
  = snd (fst (fuse (fusion_init random_job pairs_1 (Some table_a) (Some table_b) None "_a"%string "_b"%string) pairs_2 (Some table_a) (Some table_b) None "_a"%string "_b"%string 3)) /\
  snd (fuse random_job pairs_2 (Some table_a) (Some table_b) None "_a"%string "_b"%string 3)
  = snd (fuse (fusion_init random_job pairs_1 (Some table_a) (Some table_b) None "_a"%string "_b"%string) pairs_2 (Some table_a) (Some table_b) None "_a"%string "_b"%string 3) /\
  (forall fr, to_frame pairs_2 = Ok fr ->
     fuse random_job pairs_2 (Some table_a) (Some table_b) None "_a"%string "_b"%string 3
     = fuse (fusion_init random_job pairs_1 (Some table_a) (Some table_b) None "_a"%string "_b"%string) pairs_2 (Some table_a) (Some table_b) None "_a"%string "_b"%string 3) /\
  snd (fuse (fst (fst (fuse random_job pairs_2 (Some table_a) (Some table_b) None "_a"%string "_b"%string 3))) pairs_2 (Some table_a) (Some table_b) None "_a"%string "_b"%string 3)
  = snd (fuse random_job pairs_2 (Some table_a) (Some table_b) None "_a"%string "_b"%string 3).
Proof.
  split; [vm_compute; reflexivity|].
  apply (fuse_deterministic random_job (fusion_init random_job pairs_1 (Some table_a) (Some table_b) None "_a"%string "_b"%string)
           pairs_2 (Some table_a) (Some table_b) None "_a"%string "_b"%string 3).
  vm_compute; reflexivity.
Defined.

(** The engine just built has an empty queue. *)
Lemma fuse_empty_queue_raises_witness :
  e_queue new_engine = [] /\
  snd (fuse new_engine pairs_1 (Some table_a) (Some table_b) None "_a"%string "_b"%string 0)
  = match to_frame pairs_1 with
    | Err e => Err e
    | Ok _ => Err (ValueError "No objects to concatenate")
    end.
Proof.
  split; [vm_compute; reflexivity|].
  apply (fuse_empty_queue_raises new_engine pairs_1 (Some table_a) (Some table_b) None
           "_a"%string "_b"%string 0).
  vm_compute; reflexivity.
Defined.

(** C10, counterexample: on an empty queue with both levels named
    ["id"], the error raised is that of [MultiIndex.to_frame] in
    [_fusion_init], not that of the final concatenation. *)
Lemma fuse_empty_queue_duplicate_levels :
  e_queue new_engine = [] /\
  snd (fuse new_engine pairs_same_names (Some table_a) (Some table_b) None "_a"%string "_b"%string 0)
  = Err (ValueError "Cannot create duplicate column labels if allow_duplicates is False").
Proof. split; vm_compute; reflexivity. Qed.


(** [plain_job] on the empty pair index. *)
Lemma zero_pairs_zero_rows_witness :
  Forall (fun j => job_series (fusion_init plain_job pairs_0 (Some table_a) (Some table_b) None
                                 "_a"%string "_b"%string) j = Ok [])
         (e_queue plain_job) /\
  snd (fuse plain_job pairs_0 (Some table_a) (Some table_b) None "_a"%string "_b"%string 0)
  = Ok (mkFused [] [(VInt 0, [])]).
Proof.
  apply (zero_pairs_zero_rows plain_job pairs_0 table_a table_b None "_a"%string "_b"%string 0);
    vm_compute; reflexivity.
Defined.

(* ------------------------------------------------------------------ *)
(** ** Further properties of the alignment *)

Lemma zipn_row_length {A} (ls : list (list A)) row :
  In row (zipn ls) -> length row = length ls.
Proof.
  intros Hin. apply In_nth_error in Hin as [i Hi]. apply zipn_nth in Hi.
  symmetry. exact (Forall2_length Hi).
Qed.

Lemma collect_values_count st t k vals metas gv gm d :
  gen_flags vals metas = (gv, gm) -> collect_values st t k vals metas gv = Ok d ->
  length d = Nat.max (length vals) (length metas).
Proof.
  unfold collect_values, gen_flags. intros Hg H.
  destruct (length vals <? length metas) eqn:E1;
    [|destruct (length metas <? length vals) eqn:E2]; injection Hg as <- <-;
    rewrite (mapM_length _ _ _ H); try rewrite length_seq.
  - apply Nat.ltb_lt in E1. lia.
  - apply Nat.ltb_ge in E1. apply Nat.ltb_lt in E2. lia.
  - apply Nat.ltb_ge in E1, E2. lia.
Qed.

Lemma collect_meta_count st t k vals metas gv gm d :
  gen_flags vals metas = (gv, gm) -> collect_meta st t k None vals metas gm = Ok d ->
  length d = Nat.max (length vals) (length metas).
Proof.
  unfold collect_meta, gen_flags. intros Hg H.
  destruct (length vals <? length metas) eqn:E1;
    [|destruct (length metas <? length vals) eqn:E2]; injection Hg as <- <-;
    rewrite (mapM_length _ _ _ H); try rewrite length_seq.
  - apply Nat.ltb_lt in E1. lia.
  - apply Nat.ltb_ge in E1. apply Nat.ltb_lt in E2. lia.
  - apply Nat.ltb_ge in E1, E2. lia.
Qed.

Lemma zipn_transform_row_length o ls row :
  In row (zipn (apply_transform o ls)) -> length row = length ls.
Proof.
  intros H. rewrite (zipn_row_length _ _ H), apply_transform_map, length_map. reflexivity.
Qed.

(** With metadata read from columns, every aligned record is a pair
    [(values_tuple, metadata_tuple)] of two tuples of the same length: on
    each side, the larger of the number of value columns and the number of
    metadata columns. *)
Theorem aligned_tuple_arity_columns st va vb a b tv tm data :
  make_resolution_series st va vb (Some a) (Some b) tv tm false = Ok data ->
  Forall (fun r => exists vs ms, r = Rec2 vs ms /\
            length vs = Nat.max (length va) (length (listify a)) +
                        Nat.max (length vb) (length (listify b)) /\
            length ms = length vs)
         (values data).
Proof.
  intros H. unfold make_resolution_series, bind in H.
  destruct (e_df_a st) as [ta|]; [|discriminate].
  destruct (e_df_b st) as [tb|]; [|discriminate].
  destruct (negb (opt_callable tv)); [discriminate|].
  destruct (negb (opt_callable tm)); [discriminate|].
  cbn beta iota zeta delta [meta_mode gen_all meta_cols_a meta_cols_b] in H.
  destruct (gen_flags va (listify a)) as [gva gma] eqn:Ga.
  destruct (gen_flags vb (listify b)) as [gvb gmb] eqn:Gb. cbn beta iota zeta in H.
  destruct (collect_values st ta 0 va (listify a) gva) as [da|] eqn:Ea; [|discriminate].
  cbn beta iota zeta in H.
  destruct (collect_values st tb 1 vb (listify b) gvb) as [db|] eqn:Eb; [|discriminate].
  cbn beta iota zeta in H.
  destruct (collect_meta st ta 0 None va (listify a) gma) as [ma|] eqn:Ema; [|discriminate].
  cbn beta iota zeta in H.
  destruct (collect_meta st tb 1 None vb (listify b) gmb) as [mb|] eqn:Emb; [|discriminate].
  injection H as <-. rewrite series_of_list_values. apply Forall_map, Forall_forall.
  intros [vs ms] Hin. exists vs, ms. split; [reflexivity|].
  rewrite (zipn_transform_row_length _ _ _ (in_combine_l _ _ _ _ Hin)).
  rewrite (zipn_transform_row_length _ _ _ (in_combine_r _ _ _ _ Hin)).
  rewrite !length_app.
  rewrite (collect_values_count _ _ _ _ _ _ _ _ Ga Ea), (collect_values_count _ _ _ _ _ _ _ _ Gb Eb).
  rewrite (collect_meta_count _ _ _ _ _ _ _ _ Ga Ema), (collect_meta_count _ _ _ _ _ _ _ _ Gb Emb).
  split; reflexivity.
Qed.

(** Without metadata, every aligned record is a one-element tuple
    [(values_tuple,)] holding one value per declared value column. *)
Theorem aligned_tuple_arity_plain st va vb tv tm sm data :
  make_resolution_series st va vb None None tv tm sm = Ok data ->
  Forall (fun r => exists vs, r = Rec1 vs /\ length vs = length va + length vb) (values data).
Proof.
  intros H. unfold make_resolution_series, bind in H.
  destruct (e_df_a st) as [ta|]; [|discriminate].
  destruct (e_df_b st) as [tb|]; [|discriminate].
  destruct (negb (opt_callable tv)); [discriminate|].
  destruct (negb (opt_callable tm)); [discriminate|].
  cbn beta iota zeta delta [meta_mode gen_all meta_cols_a meta_cols_b collect_values] in H.
  destruct (mapM (fetch_direct st ta 0) va) as [da|] eqn:Ea; [|discriminate].
  cbn beta iota zeta in H.
  destruct (mapM (fetch_direct st tb 1) vb) as [db|] eqn:Eb; [|discriminate].
  injection H as <-. rewrite series_of_list_values. apply Forall_map, Forall_forall.
  intros vs Hin. exists vs. split; [reflexivity|].
  rewrite (zipn_transform_row_length _ _ _ Hin), length_app,
    (mapM_length _ _ _ Ea), (mapM_length _ _ _ Eb).
  reflexivity.
Qed.

(** Without metadata, [static_meta] has no effect, and [transform_meta],
    once checked callable, is never used. *)
Theorem no_metadata_ignores_meta_options st va vb tv tm sm :
  opt_callable tm = true ->
  make_resolution_series st va vb None None tv tm sm
  = make_resolution_series st va vb None None tv None false.
Proof.
  intros Hm. unfold make_resolution_series. rewrite Hm.
  destruct (e_df_a st), (e_df_b st); reflexivity.
Qed.

Lemma index0_hd {A} (l l' : list A) : hd_error l = hd_error l' -> index0 l = index0 l'.
Proof. destruct l, l'; simpl; congruence. Qed.

Lemma fetch_first_whole_hd t cols cols' :
  hd_error cols = hd_error cols' -> fetch_first_whole t cols = fetch_first_whole t cols'.
Proof. intros H. unfold fetch_first_whole. rewrite (index0_hd _ _ H). reflexivity. Qed.

(** On a broadcast side ([len(values_a) < len(meta_a)]) only the first
    column of [values_a] is read: the other names of [values_a] are never
    looked up, and any list with the same first name that also stays
    shorter than [meta_a] gives the same result. *)
Theorem broadcast_values_read_first_column st va va' vb a b tv tm :
  length va < length (listify a) -> length va' < length (listify a) ->
  hd_error va' = hd_error va ->
  make_resolution_series st va vb (Some a) (Some b) tv tm false
  = make_resolution_series st va' vb (Some a) (Some b) tv tm false.
Proof.
  intros Hl Hl' Hhd.
  assert (Ga : gen_flags va (listify a) = (true, false))
    by (unfold gen_flags; apply Nat.ltb_lt in Hl; rewrite Hl; reflexivity).
  assert (Ga' : gen_flags va' (listify a) = (true, false))
    by (unfold gen_flags; apply Nat.ltb_lt in Hl'; rewrite Hl'; reflexivity).
  unfold make_resolution_series, bind.
  destruct (e_df_a st) as [ta|]; [|reflexivity].
  destruct (e_df_b st) as [tb|]; [|reflexivity].
  destruct (negb (opt_callable tv)); [reflexivity|].
  destruct (negb (opt_callable tm)); [reflexivity|].
  cbn beta iota zeta delta [meta_mode gen_all meta_cols_a meta_cols_b].
  rewrite Ga, Ga'. destruct (gen_flags vb (listify b)) as [gvb gmb].
  cbn beta iota zeta delta [collect_values collect_meta].
  rewrite (fetch_first_whole_hd ta va va' (eq_sym Hhd)). reflexivity.
Qed.

(** On a side whose metadata is broadcast ([len(meta_a) < len(values_a)])
    only the first metadata column is read: the other names of [meta_a]
    are never looked up, and any metadata list with the same first name
    that also stays shorter than [values_a] gives the same result. *)
Theorem broadcast_metadata_read_first_column st va vb a a' b tv tm :
  length (listify a) < length va -> length (listify a') < length va ->
  hd_error (listify a') = hd_error (listify a) ->
  make_resolution_series st va vb (Some a) (Some b) tv tm false
  = make_resolution_series st va vb (Some a') (Some b) tv tm false.
Proof.
  intros Hl Hl' Hhd.
  assert (Ga : gen_flags va (listify a) = (false, true)).
  { unfold gen_flags. destruct (length va <? length (listify a)) eqn:E;
      [apply Nat.ltb_lt in E; lia|]. apply Nat.ltb_lt in Hl. rewrite Hl. reflexivity. }
  assert (Ga' : gen_flags va (listify a') = (false, true)).
  { unfold gen_flags. destruct (length va <? length (listify a')) eqn:E;
      [apply Nat.ltb_lt in E; lia|]. apply Nat.ltb_lt in Hl'. rewrite Hl'. reflexivity. }
  unfold make_resolution_series, bind.
  destruct (e_df_a st) as [ta|]; [|reflexivity].
  destruct (e_df_b st) as [tb|]; [|reflexivity].
  destruct (negb (opt_callable tv)); [reflexivity|].
  destruct (negb (opt_callable tm)); [reflexivity|].
  cbn beta iota zeta delta [meta_mode gen_all meta_cols_a meta_cols_b].
  rewrite Ga, Ga'. destruct (gen_flags vb (listify b)) as [gvb gmb].
  cbn beta iota zeta delta [collect_values collect_meta].
  rewrite (fetch_first_whole_hd ta (listify a) (listify a') (eq_sym Hhd)). reflexivity.
Qed.

(* ------------------------------------------------------------------ *)
(** ** Missing columns and unknown record ids *)

(** What a successful alignment has computed: both value loops, and both
    metadata loops when metadata names columns. *)
Lemma make_resolution_series_ok_inv st va vb ma mb tv tm sm ta tb mode data :
  e_df_a st = Some ta -> e_df_b st = Some tb -> meta_mode ma mb sm = Ok mode ->
  make_resolution_series st va vb ma mb tv tm sm = Ok data ->
  (exists d, collect_values st ta 0 va (meta_cols_a mode) (fst (fst (gen_all mode va vb))) = Ok d) /\
  (exists d, collect_values st tb 1 vb (meta_cols_b mode) (fst (snd (gen_all mode va vb))) = Ok d) /\
  (forall a b, mode = ColMeta a b ->
     (exists d, collect_meta st ta 0 None va a (snd (gen_flags va a)) = Ok d) /\
     (exists d, collect_meta st tb 1 None vb b (snd (gen_flags vb b)) = Ok d)).
Proof.
  intros Ha Hb Hmode H. unfold make_resolution_series, bind in H. rewrite Ha, Hb, Hmode in H.
  destruct (negb (opt_callable tv)); [discriminate|].
  destruct (negb (opt_callable tm)); [discriminate|].
  cbn beta iota in H.
  destruct (gen_all mode va vb) as [[gva gma] [gvb gmb]] eqn:Eg. cbn [fst snd].
  destruct (collect_values st ta 0 va (meta_cols_a mode) gva) as [da|] eqn:E1;
    cbn beta iota zeta in H; [|discriminate].
  destruct (collect_values st tb 1 vb (meta_cols_b mode) gvb) as [db|] eqn:E2;
    cbn beta iota zeta in H; [|discriminate].
  split; [eauto|]. split; [eauto|].
  intros a b ->. cbn [gen_all] in Eg. injection Eg as Ea Eb. rewrite Ea, Eb. cbn [snd].
  cbn beta iota zeta delta [meta_cols_a meta_cols_b] in H.
  destruct (collect_meta st ta 0 None va a gma) as [ma'|] eqn:E3;
    cbn beta iota zeta in H; [|discriminate].
  destruct (collect_meta st tb 1 None vb b gmb) as [mb'|] eqn:E4;
    cbn beta iota zeta in H; [|discriminate].
  split; eauto.
Qed.

Lemma mapM_in_ok {A B} (f : A -> Result B) :
  forall l ys x, mapM f l = Ok ys -> In x l -> exists y, f x = Ok y.
Proof.
  intros l ys x H Hin. apply mapM_Forall2 in H.
  induction H as [|x' y l' ys' Hx _ IH]; [destruct Hin|].
  destruct Hin as [<-|Hin]; [eauto|apply IH; exact Hin].
Qed.

Lemma fetch_direct_missing st t k n :
  has_col t n = false -> fetch_direct st t k n = Err (KeyError n).
Proof.
  unfold has_col, fetch_direct, get_column, bind. destruct (find_col n (tbl_cols t)); [discriminate|].
  reflexivity.
Qed.

Lemma gen_values_direct mode va vb :
  length (meta_cols_a mode) <= length va -> fst (fst (gen_all mode va vb)) = false.
Proof.
  destruct mode; cbn; try reflexivity. unfold gen_flags. intros H.
  destruct (Nat.ltb_spec (length va) (length ma)); [lia|].
  destruct (length ma <? length va); reflexivity.
Qed.

Lemma gen_values_direct_b mode va vb :
  length (meta_cols_b mode) <= length vb -> fst (snd (gen_all mode va vb)) = false.
Proof.
  destruct mode; cbn; try reflexivity. unfold gen_flags. intros H.
  destruct (Nat.ltb_spec (length vb) (length mb)); [lia|].
  destruct (length mb <? length vb); reflexivity.
Qed.

Lemma gen_meta_direct vals metas :
  length vals <= length metas -> snd (gen_flags vals metas) = false.
Proof.
  unfold gen_flags. intros H.
  destruct (length vals <? length metas); [reflexivity|].
  destruct (Nat.ltb_spec (length metas) (length vals)); [lia|reflexivity].
Qed.

Lemma make_resolution_series_lookup st va vb ma mb tv tm sm ta tb mode fr :
  e_df_a st = Some ta -> e_df_b st = Some tb -> e_index st = Some fr ->
  opt_callable tv = true -> opt_callable tm = true -> meta_mode ma mb sm = Ok mode ->
  (forall data, make_resolution_series st va vb ma mb tv tm sm <> Ok data) ->
  exists e, make_resolution_series st va vb ma mb tv tm sm = Err e /\ is_lookup_error e = true.
Proof.
  intros Ha Hb Hi Hv Hm Hmode Hn.
  destruct (make_resolution_series st va vb ma mb tv tm sm) as [data|e] eqn:E.
  - exfalso; exact (Hn data eq_refl).
  - exists e; split; [reflexivity|]. eapply late_error_indexed; [exact Hi|].
    exact (make_resolution_series_late _ _ _ _ _ _ _ _ ta tb mode e Ha Hb Hv Hm Hmode E).
Qed.

Lemma existsb_absent x l z : existsb (value_eqb x) l = false -> In z l -> value_eqb z x = false.
Proof.
  intros H Hin. destruct (value_eqb z x) eqn:E; [|reflexivity].
  apply value_eqb_eq in E; subst z.
  assert (existsb (value_eqb x) l = true) by (apply existsb_exists; exists x; split; [exact Hin|apply value_eqb_refl]).
  congruence.
Qed.

(** [.loc] of a column of [t] at a list of ids holding an id that is not a
    row label of [t] does not succeed. *)
Lemma fetch_direct_unknown_id st t k n ids x c :
  index_col st k = Ok ids -> In x ids -> existsb (value_eqb x) (tbl_index t) = false ->
  fetch_direct st t k n <> Ok c.
Proof.
  intros Hk Hx Hab H. unfold fetch_direct, bind in H.
  destruct (get_column t n) as [s|] eqn:Es; [|discriminate]. rewrite Hk in H.
  destruct (loc s ids) as [r|] eqn:El; [|discriminate].
  apply loc_ok in El as [_ Hall]. apply Hall, existsb_exists in Hx as [kv [Hin Hkv]].
  enough (Hf : value_eqb (fst kv) x = false) by congruence.
  unfold get_column in Es. destruct (find_col n (tbl_cols t)); [|discriminate].
  injection Es as <-. apply (existsb_absent x (tbl_index t)); [exact Hab|].
  destruct kv as [lb v]. exact (in_combine_l _ _ _ _ Hin).
Qed.

(* ------------------------------------------------------------------ *)
(** ** The loop over the queue *)

Lemma run_jobs_app_gen st q1 q2 rng :
  run_jobs st (q1 ++ q2) rng =
  let '(r1, rng1) := run_jobs st q1 rng in
  match r1 with
  | Err e => (Err e, rng1)
  | Ok c1 => let '(r2, rng2) := run_jobs st q2 rng1 in
             (match r2 with Ok c2 => Ok (c1 ++ c2) | Err e => Err e end, rng2)
  end.
Proof.
  revert rng. induction q1 as [|j q1 IH]; intros rng.
  - cbn [app run_jobs]. destruct (run_jobs st q2 rng) as [[c2|e] r2]; reflexivity.
  - cbn [app run_jobs]. destruct (job_series st j) as [data|e]; [|reflexivity].
    destruct (resolve (job_fun j) data (job_params j) rng) as [col r1].
    rewrite IH. destruct (run_jobs st q1 r1) as [[c1|e] r1'] eqn:E1; [|reflexivity].
    destruct (run_jobs st q2 r1') as [[c2|e] r2]; reflexivity.
Qed.

Lemma run_jobs_all_ok st q1 rng :
  Forall (fun j => exists d, job_series st j = Ok d) q1 ->
  exists c1, fst (run_jobs st q1 rng) = Ok c1.
Proof.
  revert rng. induction q1 as [|j q1 IH]; intros rng H; [eexists; reflexivity|].
  inversion H as [|? ? [d Hd] Hq]; subst. cbn [run_jobs]. rewrite Hd.
  destruct (resolve (job_fun j) d (job_params j) rng) as [col r1].
  destruct (IH r1 Hq) as [c1 Hc1].
  destruct (run_jobs st q1 r1) as [[c|e] r2]; cbn in Hc1; [|discriminate].
  eexists; reflexivity.
Qed.

Lemma ok_inj {A} (a b : A) : Ok a = Ok b -> a = b.
Proof. congruence. Qed.

Lemma lookup_row_pos {A} (d : A) :
  forall (c : Series RowLabel A) s i, map fst c = map RPos (seq s (length c)) -> s <= i ->
  lookup_row d (RPos i) c = nth (i - s) (values c) d.
Proof.
  induction c as [|[l a] c IH]; intros s i Hc Hi.
  - unfold lookup_row. cbn. destruct (i - s); reflexivity.
  - cbn [map length seq] in Hc. injection Hc as -> Hc. unfold lookup_row. cbn [find fst rowlabel_eqb].
    destruct (Nat.eqb_spec s i) as [->|Hne].
    + rewrite Nat.sub_diag. reflexivity.
    + replace (i - s) with (S (i - S s)) by lia. cbn [values map nth].
      change (lookup_row d (RPos i) c = nth (i - S s) (values c) d).
      apply (IH (S s) i Hc). lia.
Qed.

Lemma concat_axis1_cells ss t :
  Forall (fun c => map fst c = map RPos (seq 0 (length c))) ss ->
  concat_axis1 ss = Ok t ->
  fu_cols t = combine (map (fun j => VInt (Z.of_nat j)) (seq 0 (length ss)))
                (map (fun c => map (fun i => nth i (values c) VNone) (seq 0 (length (fu_index t)))) ss).
Proof.
  intros Hpos H. pose proof (concat_axis1_pos ss t Hpos H) as [_ Hidx].
  destruct ss as [|s rest]; [discriminate|].
  unfold concat_axis1 in H. apply ok_inj in H. subst t.
  cbn [fu_cols fu_index] in *. rewrite Hidx, length_map, length_seq.
  f_equal. apply map_ext_in. intros c Hc. rewrite map_map. apply map_ext_in.
  intros i _. rewrite (lookup_row_pos VNone c 0 i); [rewrite Nat.sub_0_r; reflexivity| |lia].
  rewrite Forall_forall in Hpos. exact (Hpos c Hc).
Qed.

(* ------------------------------------------------------------------ *)
(** ** The wrappers and the base class *)

Lemma static_records st va vb ca cb tv tm data :
  make_resolution_series st va vb (Some ca) (Some cb) tv tm true = Ok data ->
  Forall (fun r => exists vs,
            r = Rec2 vs (repeat (transform_value tm ca) (length va) ++
                         repeat (transform_value tm cb) (length vb)))
         (values data).
Proof.
  intros H. unfold make_resolution_series, bind in H.
  destruct (e_df_a st) as [ta|]; [|discriminate].
  destruct (e_df_b st) as [tb|]; [|discriminate].
  destruct (negb (opt_callable tv)); [discriminate|].
  destruct (negb (opt_callable tm)); [discriminate|].
  cbn beta iota zeta delta [meta_mode gen_all meta_cols_a meta_cols_b] in H.
  destruct (collect_values st ta 0 va [] false) as [da|]; [|discriminate].
  cbn beta iota zeta in H.
  destruct (collect_values st tb 1 vb [] false) as [db|]; [|discriminate].
  cbn beta iota zeta in H.
  destruct (collect_meta st ta 0 (Some ca) va [] false) as [ma|] eqn:E3; [|discriminate].
  cbn beta iota zeta in H.
  destruct (collect_meta st tb 1 (Some cb) vb [] false) as [mb|] eqn:E4; [|discriminate].
  injection H as <-. rewrite series_of_list_values.
  apply Forall_map, Forall_forall. intros [v m] Hin. exists v. cbn [fst snd]. f_equal.
  apply in_combine_r, In_nth_error in Hin as [i Hi].
  apply zipn_nth in Hi. rewrite apply_transform_map, map_app in Hi.
  apply Forall2_app_inv_l in Hi as [m1 [m2 [H1 [H2 ->]]]].
  destruct (collect_meta_static _ _ _ _ _ _ _ _ E3) as [La Fa].
  destruct (collect_meta_static _ _ _ _ _ _ _ _ E4) as [Lb Fb].
  rewrite (repeat_columns_row _ _ _ _ H1 (repeat_columns_map _ _ _ Fa)).
  rewrite (repeat_columns_row _ _ _ _ H2 (repeat_columns_map _ _ _ Fb)).
  rewrite !length_map, La, Lb. reflexivity.
Qed.

Lemma plain_records st va vb tv tm sm data :
  make_resolution_series st va vb None None tv tm sm = Ok data ->
  Forall (fun r => exists vs, r = Rec1 vs /\ length vs = length va + length vb) (values data).
Proof.
  intros H. unfold make_resolution_series, bind in H.
  destruct (e_df_a st) as [ta|]; [|discriminate].
  destruct (e_df_b st) as [tb|]; [|discriminate].
  destruct (negb (opt_callable tv)); [discriminate|].
  destruct (negb (opt_callable tm)); [discriminate|].
  cbn beta iota zeta delta [meta_mode gen_all meta_cols_a meta_cols_b collect_values] in H.
  destruct (mapM (fetch_direct st ta 0) va) as [da|] eqn:Ea; [|discriminate].
  cbn beta iota zeta in H.
  destruct (mapM (fetch_direct st tb 1) vb) as [db|] eqn:Eb; [|discriminate].
  injection H as <-. rewrite series_of_list_values. apply Forall_map, Forall_forall.
  intros vs Hin. exists vs. split; [reflexivity|].
  rewrite (zipn_transform_row_length _ _ _ Hin), length_app,
    (mapM_length _ _ _ Ea), (mapM_length _ _ _ Eb).
  reflexivity.
Qed.

Lemma run_jobs_with_core st q rng :
  run_jobs_with core_job_series st q rng = (Ok (map (fun _ => []) q), rng).
Proof.
  revert rng. induction q as [|j q IH]; intros rng; [reflexivity|].
  cbn [run_jobs_with core_job_series resolve apply_series]. rewrite IH. reflexivity.
Qed.

Lemma run_jobs_positional st q rng cols rng' :
  run_jobs st q rng = (Ok cols, rng') ->
  Forall (fun c => map fst c = map RPos (seq 0 (length c))) cols.
Proof.
  intros H. pose proof (run_jobs_ok _ _ _ _ _ H) as HF. clear H.
  induction HF as [|j c q cs [data [r0 [Hj Hc]]] _ IH]; constructor; [|exact IH].
  subst c. rewrite resolve_labels, (job_series_positional _ _ _ Hj).
  rewrite <- (length_map fst (fst (resolve _ _ _ _))), resolve_labels, length_map.
  reflexivity.
Qed.

(* ------------------------------------------------------------------ *)
(** ** Further properties of fuse.py *)

(** A value column that is missing from its table and is read with
    [.loc] (its side is not broadcast: [len(values_x) >= len(meta_x)], or
    metadata is absent or static) makes the alignment raise a lookup
    error, once the configuration checks pass and [self.index] is set. *)
Theorem missing_value_column_raises st va vb ma mb tv tm sm ta tb mode fr n :
  e_df_a st = Some ta -> e_df_b st = Some tb -> e_index st = Some fr ->
  opt_callable tv = true -> opt_callable tm = true -> meta_mode ma mb sm = Ok mode ->
  (In n va /\ has_col ta n = false /\ length (meta_cols_a mode) <= length va) \/
  (In n vb /\ has_col tb n = false /\ length (meta_cols_b mode) <= length vb) ->
  exists e, make_resolution_series st va vb ma mb tv tm sm = Err e /\ is_lookup_error e = true.
Proof.
  intros Ha Hb Hi Hv Hm Hmode Hn.
  apply (make_resolution_series_lookup _ _ _ _ _ _ _ _ ta tb mode fr Ha Hb Hi Hv Hm Hmode).
  intros data H.
  destruct (make_resolution_series_ok_inv _ _ _ _ _ _ _ _ _ _ _ _ Ha Hb Hmode H)
    as [[da Ea] [[db Eb] _]].
  destruct Hn as [[Hin [Hc Hl]]|[Hin [Hc Hl]]].
  - rewrite (gen_values_direct _ _ vb Hl) in Ea. unfold collect_values in Ea.
    destruct (mapM_in_ok _ _ _ _ Ea Hin) as [y Hy].
    rewrite fetch_direct_missing in Hy by exact Hc. discriminate.
  - rewrite (gen_values_direct_b _ va _ Hl) in Eb. unfold collect_values in Eb.
    destruct (mapM_in_ok _ _ _ _ Eb Hin) as [y Hy].
    rewrite fetch_direct_missing in Hy by exact Hc. discriminate.
Qed.

(** A metadata column that is missing from its table and is read with
    [.loc] (its side's metadata is not broadcast:
    [len(values_x) <= len(meta_x)]) makes the alignment raise a lookup
    error, once the configuration checks pass and [self.index] is set. *)
Theorem missing_metadata_column_raises st va vb a b tv tm ta tb fr n :
  e_df_a st = Some ta -> e_df_b st = Some tb -> e_index st = Some fr ->
  opt_callable tv = true -> opt_callable tm = true ->
  (In n (listify a) /\ has_col ta n = false /\ length va <= length (listify a)) \/
  (In n (listify b) /\ has_col tb n = false /\ length vb <= length (listify b)) ->
  exists e, make_resolution_series st va vb (Some a) (Some b) tv tm false = Err e /\
            is_lookup_error e = true.
Proof.
  intros Ha Hb Hi Hv Hm Hn.
  apply (make_resolution_series_lookup st va vb (Some a) (Some b) tv tm false ta tb
           (ColMeta (listify a) (listify b)) fr Ha Hb Hi Hv Hm eq_refl).
  intros data H.
  destruct (make_resolution_series_ok_inv st va vb (Some a) (Some b) tv tm false ta tb
              (ColMeta (listify a) (listify b)) data Ha Hb eq_refl H)
    as [_ [_ Hmeta]].
  destruct (Hmeta _ _ eq_refl) as [[ma' Ema] [mb' Emb]].
  destruct Hn as [[Hin [Hc Hl]]|[Hin [Hc Hl]]].
  - rewrite (gen_meta_direct _ _ Hl) in Ema. unfold collect_meta in Ema.
    destruct (mapM_in_ok _ _ _ _ Ema Hin) as [y Hy].
    rewrite fetch_direct_missing in Hy by exact Hc. discriminate.
  - rewrite (gen_meta_direct _ _ Hl) in Emb. unfold collect_meta in Emb.
    destruct (mapM_in_ok _ _ _ _ Emb Hin) as [y Hy].
    rewrite fetch_direct_missing in Hy by exact Hc. discriminate.
Qed.

(** With a pair index with unnamed levels, a pair [(x, y)] whose A-id [x]
    is not a record id of [df_a] (or whose B-id [y] is not one of [df_b])
    makes the alignment raise a lookup error, as soon as that side has a
    value column read with [.loc]. *)
Theorem unknown_record_id_raises st p ta tb pred suf_a suf_b va vb ma mb tv tm sm mode x y :
  pi_names p = (None, None) -> In (x, y) (pi_pairs p) ->
  opt_callable tv = true -> opt_callable tm = true -> meta_mode ma mb sm = Ok mode ->
  (existsb (value_eqb x) (tbl_index ta) = false /\ va <> [] /\
   length (meta_cols_a mode) <= length va) \/
  (existsb (value_eqb y) (tbl_index tb) = false /\ vb <> [] /\
   length (meta_cols_b mode) <= length vb) ->
  exists e, make_resolution_series (fusion_init st p (Some ta) (Some tb) pred suf_a suf_b)
              va vb ma mb tv tm sm = Err e /\ is_lookup_error e = true.
Proof.
  intros Hn Hxy Hv Hm Hmode Hcase. pose proof (to_frame_unnamed _ Hn) as Htf.
  destruct (index_col_unnamed st p (Some ta) (Some tb) pred suf_a suf_b Hn) as [H0 H1].
  rewrite (fusion_init_framed _ _ _ _ _ _ _ _ Htf) in H0, H1 |- *.
  set (st1 := mkEngine (Some p) (Some (frame_of p)) pred (Some ta) (Some tb)
                       (Some suf_a) (Some suf_b) (e_queue st)) in *.
  apply (make_resolution_series_lookup st1
           va vb ma mb tv tm sm ta tb mode (frame_of p) eq_refl eq_refl eq_refl Hv Hm Hmode).
  intros data H.
  destruct (make_resolution_series_ok_inv st1
              va vb ma mb tv tm sm ta tb mode data eq_refl eq_refl Hmode H)
    as [[da Ea] [[db Eb] _]].
  destruct Hcase as [[Hab [Hne Hl]]|[Hab [Hne Hl]]].
  - rewrite (gen_values_direct _ _ vb Hl) in Ea. unfold collect_values in Ea.
    destruct va as [|n va']; [contradiction|].
    destruct (mapM_in_ok _ _ _ _ Ea (or_introl eq_refl)) as [c Hc].
    refine (fetch_direct_unknown_id _ _ _ _ _ x c H0 _ Hab Hc).
    exact (in_map fst _ _ Hxy).
  - rewrite (gen_values_direct_b _ va _ Hl) in Eb. unfold collect_values in Eb.
    destruct vb as [|n vb']; [contradiction|].
    destruct (mapM_in_ok _ _ _ _ Eb (or_introl eq_refl)) as [c Hc].
    refine (fetch_direct_unknown_id _ _ _ _ _ y c H1 _ Hab Hc).
    exact (in_map snd _ _ Hxy).
Qed.

(** When [values_a] is empty but [meta_a] names columns (metadata not
    static), the alignment raises [IndexError]: the generalized loop reads
    [values_a[0]]. *)
Theorem empty_values_with_metadata_columns_raise st vb a b tv tm ta tb :
  e_df_a st = Some ta -> e_df_b st = Some tb ->
  opt_callable tv = true -> opt_callable tm = true -> listify a <> [] ->
  make_resolution_series st [] vb (Some a) (Some b) tv tm false = Err IndexError.
Proof.
  intros Ha Hb Hv Hm Hne. unfold make_resolution_series, bind.
  rewrite Ha, Hb, Hv, Hm. cbn [negb meta_mode gen_all meta_cols_a meta_cols_b].
  destruct (listify a) as [|c cs] eqn:El; [contradiction|].
  unfold gen_flags at 1. cbn [length Nat.ltb Nat.leb]. cbn [collect_values].
  cbn [seq mapM fetch_first_whole index0 bind length].
  destruct (gen_flags vb (listify b)). reflexivity.
Qed.

(** A job that reads no value column, with no metadata or with metadata
    that names no column (or is static), yields an empty Series whatever
    the pair index: [zip()] with no argument is empty. *)
Theorem no_columns_no_records st ma mb sm tv tm ta tb mode :
  e_df_a st = Some ta -> e_df_b st = Some tb ->
  opt_callable tv = true -> opt_callable tm = true -> meta_mode ma mb sm = Ok mode ->
  meta_cols_a mode = [] -> meta_cols_b mode = [] ->
  make_resolution_series st [] [] ma mb tv tm sm = Ok [].
Proof.
  intros Ha Hb Hv Hm Hmode HA HB. unfold make_resolution_series, bind.
  rewrite Ha, Hb, Hv, Hm, Hmode. cbn [negb]. rewrite HA, HB.
  destruct mode as [|ca cb|a b]; cbn in HA, HB |- *; try subst a b;
    destruct tv as [[f|v]|], tm as [[g|w]|]; reflexivity.
Qed.

(** Running the queue [q1 ++ q2] gives the columns of [q1] followed by
    those of [q2], the jobs of [q2] starting from the random state left
    by [q1]. *)
Theorem run_jobs_queue_concat st q1 q2 rng c1 rng1 :
  run_jobs st q1 rng = (Ok c1, rng1) ->
  run_jobs st (q1 ++ q2) rng =
  (match fst (run_jobs st q2 rng1) with Ok c2 => Ok (c1 ++ c2) | Err e => Err e end,
   snd (run_jobs st q2 rng1)).
Proof.
  intros H. rewrite run_jobs_app_gen, H. cbv beta iota.
  destruct (run_jobs st q2 rng1) as [[c2|e] r2]; reflexivity.
Qed.

(** Once [_fusion_init] has returned (the two level labels differ),
    [fuse] raises the exception of the first job whose alignment fails;
    the jobs after it are never run, so the random state is the one left
    by the jobs before it. *)
Theorem fuse_stops_at_first_failing_job st p dfa dfb pred sa sb rng fr q1 j q2 e :
  to_frame p = Ok fr ->
  e_queue st = q1 ++ j :: q2 ->
  Forall (fun j' => exists d, job_series (fusion_init st p dfa dfb pred sa sb) j' = Ok d) q1 ->
  job_series (fusion_init st p dfa dfb pred sa sb) j = Err e ->
  snd (fuse st p dfa dfb pred sa sb rng) = Err e /\
  snd (fst (fuse st p dfa dfb pred sa sb rng))
  = snd (run_jobs (fusion_init st p dfa dfb pred sa sb) q1 rng).
Proof.
  intros Hf Hq Hok Hj. rewrite (fuse_framed _ _ _ _ _ _ _ _ _ Hf). cbv zeta.
  rewrite Hq, run_jobs_app_gen.
  destruct (run_jobs_all_ok _ _ rng Hok) as [c1 Hc1].
  destruct (run_jobs (fusion_init st p dfa dfb pred sa sb) q1 rng) as [[c|e'] r1];
    cbn in Hc1; [|discriminate].
  cbn [run_jobs]. rewrite Hj. split; reflexivity.
Qed.

(** When [fuse] returns a table, the cell of column [j] at row [i] is the
    [i]-th value returned for the [j]-th queued job, or [NaN] when that
    job's column is shorter than the table. *)
Theorem fused_cells st p dfa dfb pred sa sb rng st' rng' t :
  fuse st p dfa dfb pred sa sb rng = (st', rng', Ok t) ->
  exists cols,
    fst (run_jobs st' (e_queue st) rng) = Ok cols /\
    fu_cols t = combine (map (fun j => VInt (Z.of_nat j)) (seq 0 (length cols)))
                  (map (fun c => map (fun i => nth i (values c) VNone)
                                     (seq 0 (length (fu_index t)))) cols).
Proof.
  intros H. destruct (to_frame p) as [fr|e0] eqn:Hf;
    [|rewrite (fuse_unframed _ _ _ _ _ _ _ _ _ Hf) in H; discriminate].
  rewrite (fuse_framed _ _ _ _ _ _ _ _ _ Hf) in H. cbv zeta in H.
  destruct (run_jobs (fusion_init st p dfa dfb pred sa sb) (e_queue st) rng)
    as [[cols|e] r1] eqn:Er; inversion H; subst.
  exists cols. rewrite Er. split; [reflexivity|].
  apply concat_axis1_cells; [exact (run_jobs_positional _ _ _ _ _ Er)|assumption].
Qed.

(** [trust_your_friends(c1, c2, trusted)] queues one job whose strategy
    is [choose], called with the extra argument [trusted], on records
    whose metadata tuple is ["a"] repeated [len(c1)] times followed by
    ["b"] repeated [len(c2)] times. *)
Theorem trust_your_friends_job choose st c1 c2 trusted :
  exists j, e_queue (trust_your_friends choose st c1 c2 trusted) = e_queue st ++ [j] /\
    job_fun j = choose /\ params_args (job_params j) = [trusted] /\
    forall st' data, job_series st' j = Ok data ->
      Forall (fun r => exists vs, r = Rec2 vs (repeat (VStr "a"%string) (length c1) ++
                                               repeat (VStr "b"%string) (length c2)))
             (values data).
Proof.
  eexists. split; [reflexivity|]. split; [reflexivity|]. split; [reflexivity|].
  intros st' data H. exact (static_records _ _ _ _ _ _ _ _ H).
Qed.

(** [no_gossiping], [roll_the_dice] and [cry_with_the_wolves] each queue
    one job with the strategy given and no extra argument, on records that
    are one-element tuples [(values_tuple,)] with one value per column of
    [c1] and [c2]. *)
Theorem plain_wrappers_job f st c1 c2 :
  Forall (fun w : Strategy -> Engine -> list Value -> list Value -> Engine =>
    exists j, e_queue (w f st c1 c2) = e_queue st ++ [j] /\
      job_fun j = f /\ params_args (job_params j) = [] /\
      forall st' data, job_series st' j = Ok data ->
        Forall (fun r => exists vs, r = Rec1 vs /\ length vs = length c1 + length c2)
               (values data))
    [no_gossiping; roll_the_dice; cry_with_the_wolves].
Proof.
  repeat constructor;
    (eexists; split; [reflexivity|]; split; [reflexivity|]; split; [reflexivity|];
     intros st' data H; exact (plain_records _ _ _ _ _ _ _ H)).
Qed.

(** [FuseCore.fuse] on the base class, whose [_make_resolution_series]
    returns an empty Series: when the two level labels of the pair index
    coincide, [_fusion_init] raises the [ValueError] of
    [MultiIndex.to_frame]; otherwise an empty queue raises the
    [ValueError] of [pd.concat([])], and a non-empty one gives one empty
    column per queued job and no row. No strategy is called, and the
    random state is left as it was. *)
Theorem fuse_core_result st p dfa dfb pred sa sb rng :
  fuse_core st p dfa dfb pred sa sb rng =
  (fusion_init st p dfa dfb pred sa sb, rng,
   match to_frame p with
   | Err e => Err e
   | Ok _ =>
       match e_queue st with
       | [] => Err (ValueError "No objects to concatenate")
       | _ => Ok (mkFused [] (map (fun j => (VInt (Z.of_nat j), [])) (seq 0 (length (e_queue st)))))
       end
   end).
Proof.
  unfold fuse_core, fuse_with, fusion_init, fusion_init_call.
  destruct (to_frame p) as [fr|e]; [|reflexivity].
  cbn [e_queue]. rewrite run_jobs_with_core.
  destruct (e_queue st) as [|j q] eqn:Eq; [reflexivity|].
  rewrite (concat_axis1_zero (j :: q)); [reflexivity|discriminate].
Qed.

(* ------------------------------------------------------------------ *)
(** ** Instances of the further properties on the sample data *)

(** One value column and two metadata columns on side A (values
    broadcast), one of each on side B, two pairs. *)
Lemma aligned_tuple_arity_columns_witness :
  Forall (fun r => exists vs ms, r = Rec2 vs ms /\
            length vs = Nat.max (length [VStr "v"]) (length (listify (VList [VStr "m1"; VStr "m2"]))) +
                        Nat.max (length [VStr "w"]) (length (listify (VStr "n"))) /\
            length ms = length vs)
    (values [(RPos 0, Rec2 [VStr "p"; VStr "p"; VStr "r"] [VInt 2; VInt 4; VInt 7]);
             (RPos 1, Rec2 [VStr "q"; VStr "q"; VStr "r"] [VInt 1; VInt 3; VInt 7])]).
Proof.
  apply (aligned_tuple_arity_columns linked [VStr "v"] [VStr "w"]
           (VList [VStr "m1"; VStr "m2"]) (VStr "n") None None
           [(RPos 0, Rec2 [VStr "p"; VStr "p"; VStr "r"] [VInt 2; VInt 4; VInt 7]);
            (RPos 1, Rec2 [VStr "q"; VStr "q"; VStr "r"] [VInt 1; VInt 3; VInt 7])]).
  vm_compute; reflexivity.
Defined.

(** Two value columns on side A, one on side B, no metadata, two pairs. *)
Lemma aligned_tuple_arity_plain_witness :
  Forall (fun r => exists vs, r = Rec1 vs /\
            length vs = length [VStr "v"; VStr "m1"] + length [VStr "w"])
    (values [(RPos 0, Rec1 [VStr "q"; VInt 2; VStr "r"]);
             (RPos 1, Rec1 [VStr "p"; VInt 1; VStr "r"])]).
Proof.
  apply (aligned_tuple_arity_plain linked [VStr "v"; VStr "m1"] [VStr "w"] None None false
           [(RPos 0, Rec1 [VStr "q"; VInt 2; VStr "r"]);
            (RPos 1, Rec1 [VStr "p"; VInt 1; VStr "r"])]).
  vm_compute; reflexivity.
Defined.

(** A [transform_meta] and [static_meta=True] given without metadata. *)
Lemma no_metadata_ignores_meta_options_witness :
  make_resolution_series linked [VStr "v"] [VStr "w"] None None None
    (Some (PyCallable (fun _ => VStr "X"))) true
  = make_resolution_series linked [VStr "v"] [VStr "w"] None None None None false.
Proof.
  apply (no_metadata_ignores_meta_options linked [VStr "v"] [VStr "w"] None
           (Some (PyCallable (fun _ => VStr "X"))) true).
  vm_compute; reflexivity.
Defined.

(** [values_a = [v, m1]] and [[v, m3]] against three metadata columns. *)
Lemma broadcast_values_read_first_column_witness :
  make_resolution_series linked [VStr "v"; VStr "m1"] [VStr "w"]
    (Some (VList [VStr "m1"; VStr "m2"; VStr "m3"])) (Some (VStr "n")) None None false
  = make_resolution_series linked [VStr "v"; VStr "m3"] [VStr "w"]
      (Some (VList [VStr "m1"; VStr "m2"; VStr "m3"])) (Some (VStr "n")) None None false.
Proof.
  apply (broadcast_values_read_first_column linked [VStr "v"; VStr "m1"] [VStr "v"; VStr "m3"]
           [VStr "w"] (VList [VStr "m1"; VStr "m2"; VStr "m3"]) (VStr "n") None None);
    [cbn; lia|cbn; lia|vm_compute; reflexivity].
Defined.

(** [meta_a = [m2, m1]] and [[m2, v]] against three value columns. *)
Lemma broadcast_metadata_read_first_column_witness :
  make_resolution_series linked [VStr "v"; VStr "m1"; VStr "m3"] [VStr "w"]
    (Some (VList [VStr "m2"; VStr "m1"])) (Some (VStr "n")) None None false
  = make_resolution_series linked [VStr "v"; VStr "m1"; VStr "m3"] [VStr "w"]
      (Some (VList [VStr "m2"; VStr "v"])) (Some (VStr "n")) None None false.
Proof.
  apply (broadcast_metadata_read_first_column linked [VStr "v"; VStr "m1"; VStr "m3"] [VStr "w"]
           (VList [VStr "m2"; VStr "m1"]) (VList [VStr "m2"; VStr "v"]) (VStr "n") None None);
    [cbn; lia|cbn; lia|vm_compute; reflexivity].
Defined.

(** Column [zz] does not exist in table A. *)
Lemma missing_value_column_raises_witness :
  exists e, make_resolution_series linked [VStr "v"; VStr "zz"] [VStr "w"] None None None None false
            = Err e /\ is_lookup_error e = true.
Proof.
  apply (missing_value_column_raises linked [VStr "v"; VStr "zz"] [VStr "w"] None None None None
           false table_a table_b NoMeta (frame_of pairs_2) (VStr "zz"));
    try (vm_compute; reflexivity).
  left. split; [right; left; reflexivity|]. split; [vm_compute; reflexivity|cbn; lia].
Defined.

(** Metadata column [zz] does not exist in table A. *)
Lemma missing_metadata_column_raises_witness :
  exists e, make_resolution_series linked [VStr "v"] [VStr "w"]
              (Some (VList [VStr "m1"; VStr "zz"])) (Some (VStr "n")) None None false
            = Err e /\ is_lookup_error e = true.
Proof.
  apply (missing_metadata_column_raises linked [VStr "v"] [VStr "w"]
           (VList [VStr "m1"; VStr "zz"]) (VStr "n") None None table_a table_b
           (frame_of pairs_2) (VStr "zz"));
    try (vm_compute; reflexivity).
  left. split; [right; left; reflexivity|]. split; [vm_compute; reflexivity|cbn; lia].
Defined.

(** The second pair names record [a9], absent from table A. *)
Lemma unknown_record_id_raises_witness :
  exists e, make_resolution_series
              (fusion_init new_engine
                 (mkPairIndex (None, None) [(VStr "a2", VStr "b1"); (VStr "a9", VStr "b1")])
                 (Some table_a) (Some table_b) None "_a"%string "_b"%string)
              [VStr "v"] [VStr "w"] None None None None false
            = Err e /\ is_lookup_error e = true.
Proof.
  apply (unknown_record_id_raises new_engine
           (mkPairIndex (None, None) [(VStr "a2", VStr "b1"); (VStr "a9", VStr "b1")])
           table_a table_b None "_a"%string "_b"%string [VStr "v"] [VStr "w"] None None None None
           false NoMeta (VStr "a9") (VStr "b1"));
    try (vm_compute; reflexivity).
  - right; left; reflexivity.
  - left. split; [vm_compute; reflexivity|]. split; [discriminate|cbn; lia].
Defined.

(** No value column on side A, one metadata column. *)
Lemma empty_values_with_metadata_columns_raise_witness :
  make_resolution_series linked [] [VStr "w"] (Some (VList [VStr "m1"])) (Some (VStr "n"))
    None None false = Err IndexError.
Proof.
  apply (empty_values_with_metadata_columns_raise linked [VStr "w"] (VList [VStr "m1"])
           (VStr "n") None None table_a table_b);
    [vm_compute; reflexivity..|discriminate].
Defined.

(** No value column, static metadata, two pairs. *)
Lemma no_columns_no_records_witness :
  make_resolution_series linked [] [] (Some (VStr "a")) (Some (VStr "b")) None None true = Ok [].
Proof.
  apply (no_columns_no_records linked (Some (VStr "a")) (Some (VStr "b")) true None None
           table_a table_b (StaticMeta (VStr "a") (VStr "b")));
    vm_compute; reflexivity.
Defined.

(** A randomized job, then a plain one, on two pairs. *)
Lemma run_jobs_queue_concat_witness :
  run_jobs linked (e_queue random_job ++ e_queue plain_job) 0 =
  (match fst (run_jobs linked (e_queue plain_job) 2) with
   | Ok c2 => Ok ([[(RPos 0, VStr "q"); (RPos 1, VStr "r")]] ++ c2)
   | Err e => Err e
   end,
   snd (run_jobs linked (e_queue plain_job) 2)).
Proof.
  apply (run_jobs_queue_concat linked (e_queue random_job) (e_queue plain_job) 0
           [[(RPos 0, VStr "q"); (RPos 1, VStr "r")]] 2).
  vm_compute; reflexivity.
Defined.

(** [plain_job], then a job with metadata for one side only, then a
    randomized job that is never run. *)
Lemma fuse_stops_at_first_failing_job_witness :
  snd (fuse failing_job pairs_1 (Some table_a) (Some table_b) None "_a"%string "_b"%string 0)
  = Err (AssertionError "Metadata was given for one Data Frame but not the other.") /\
  snd (fst (fuse failing_job pairs_1 (Some table_a) (Some table_b) None "_a"%string "_b"%string 0))
  = snd (run_jobs (fusion_init failing_job pairs_1 (Some table_a) (Some table_b) None
                     "_a"%string "_b"%string) (e_queue plain_job) 0).
Proof.
  apply (fuse_stops_at_first_failing_job failing_job pairs_1 (Some table_a) (Some table_b) None
           "_a"%string "_b"%string 0 (frame_of pairs_1) (e_queue plain_job)
           (mkJob first_value [VStr "v"] [VStr "w"] (Some (VStr "m1")) None None None false None)
           (e_queue random_job)).
  - vm_compute; reflexivity.
  - reflexivity.
  - constructor; [eexists; vm_compute; reflexivity|constructor].
  - vm_compute; reflexivity.
Defined.

(** [plain_job] and a job reading no column: the second column is [NaN]. *)
Lemma fused_cells_witness :
  exists cols,
    fst (run_jobs (fusion_init padded_job pairs_1 (Some table_a) (Some table_b) None
                     "_a"%string "_b"%string) (e_queue padded_job) 0) = Ok cols /\
    fu_cols (mkFused [RPos 0] [(VInt 0, [VStr "q"]); (VInt 1, [VNone])])
    = combine (map (fun j => VInt (Z.of_nat j)) (seq 0 (length cols)))
        (map (fun c => map (fun i => nth i (values c) VNone)
               (seq 0 (length (fu_index (mkFused [RPos 0] [(VInt 0, [VStr "q"]); (VInt 1, [VNone])])))))
             cols).
Proof.
  apply (fused_cells padded_job pairs_1 (Some table_a) (Some table_b) None "_a"%string "_b"%string 0
           (fusion_init padded_job pairs_1 (Some table_a) (Some table_b) None "_a"%string "_b"%string)
           0 (mkFused [RPos 0] [(VInt 0, [VStr "q"]); (VInt 1, [VNone])])).
  vm_compute; reflexivity.
Defined.
